(** * Stop-and-wait reliable data transfer: client.py and server.py

    A shallow embedding of the sender ([client.py]) and the receiver
    ([server.py]) of the repository, and the properties of the checksum,
    of the receiver loop and of the sender loop.

    Conventions.
    - A Python [int] is a [Z]; a [bytes] object is a [list byte]; a
      Python [str] is the list of its Unicode code points.
    - A call that can raise returns a [result]: [Ok v] or [Raise e].
    - A Python [float] is a binary64 [float] of the kernel, so the
      arithmetic on [timeout_value] is the arithmetic of the interpreter. *)

From Stdlib Require Import ZArith NArith List Bool Lia PrimFloat Permutation.
From Stdlib.Strings Require Import Byte.
From Stdlib.Strings Require String.
Import String.StringSyntax.
Delimit Scope string_scope with string.
Bind Scope string_scope with String.string.
Import ListNotations.

Local Open Scope Z_scope.

(** ** Python values and built-ins used by the two programs *)

Module Py.

Inductive exn : Type :=
| BlockingIOError      (* non-blocking socket, nothing to read *)
| UnicodeEncodeError   (* str.encode('utf-8') on a lone surrogate *)
| UnicodeDecodeError   (* bytes.decode('utf-8') on ill-formed input *)
| MalformedPacket      (* packet.extract cannot read the header *)
| OSError.             (* any other failure of the socket layer *)

Inductive result (A : Type) : Type :=
| Ok (a : A)
| Raise (e : exn).
Arguments Ok {A} a.
Arguments Raise {A} e.

Definition bind {A B : Type} (m : result A) (k : A -> result B) : result B :=
  match m with
  | Ok a => k a
  | Raise e => Raise e
  end.

Definition codepoint := N.
Definition pystr := list codepoint.
Definition bytes := list byte.

(** The characters the programs write as literals. *)
Definition ch_0 : codepoint := 48%N.
Definition ch_1 : codepoint := 49%N.
Definition ch_b : codepoint := 98%N.
Definition ch_plus : codepoint := 43%N.
Definition ch_minus : codepoint := 45%N.

(** Iterating over a [bytes] object yields ints in [0, 255]. *)
Definition int_of_byte (b : byte) : Z := Z.of_N (Byte.to_N b).
Definition ints (bs : bytes) : list Z := map int_of_byte bs.

(** [bin(n)]: ['0b'] followed by the binary digits, most significant
    first, with a leading ['-'] for a negative number. *)
Fixpoint bin_pos (p : positive) (acc : pystr) : pystr :=
  match p with
  | xH => ch_1 :: acc
  | xO q => bin_pos q (ch_0 :: acc)
  | xI q => bin_pos q (ch_1 :: acc)
  end.

Definition bin (n : Z) : pystr :=
  match n with
  | Z0 => [ch_0; ch_b; ch_0]
  | Zpos p => ch_0 :: ch_b :: bin_pos p []
  | Zneg p => ch_minus :: ch_0 :: ch_b :: bin_pos p []
  end.

(** [s.count(c)] for a one-character [c]. *)
Fixpoint count (s : pystr) (c : codepoint) : Z :=
  match s with
  | [] => 0
  | x :: r => (if N.eqb x c then 1 else 0) + count r c
  end.

(** [sum(...)] of ints, from 0, left to right. *)
Definition sum (l : list Z) : Z := fold_left Z.add l 0.

(** [str(n)] for an int: decimal digits, most significant first, no
    leading zero, ['-'] in front of a negative number.  The digits are
    produced from the least significant one; [fuel] bounds their number
    and [str_nonneg] gives one unit of fuel per binary digit. *)
Fixpoint digits (fuel : nat) (n : Z) (acc : pystr) : pystr :=
  match fuel with
  | O => acc
  | S f =>
      let acc' := (ch_0 + Z.to_N (n mod 10))%N :: acc in
      if n / 10 =? 0 then acc' else digits f (n / 10) acc'
  end.

Definition str_nonneg (n : Z) : pystr :=
  digits (S (Z.to_nat (Z.log2 n))) n [].

Definition str (n : Z) : pystr :=
  if n <? 0 then ch_minus :: str_nonneg (- n) else str_nonneg n.

(** [s.zfill(width)]: pad with ['0'] on the left up to [width]
    characters, after the sign when there is one; a string that is
    already [width] long or longer is returned as it is. *)
Definition zfill (s : pystr) (width : nat) : pystr :=
  if (width <=? length s)%nat then s
  else
    let fill := repeat ch_0 (width - length s) in
    match s with
    | c :: r =>
        if N.eqb c ch_plus || N.eqb c ch_minus then c :: fill ++ r
        else fill ++ s
    | [] => fill
    end.

(** [s.encode('utf-8')].  Lone surrogates cannot be encoded. *)
Definition byte_of_N (n : N) : byte :=
  match Byte.of_N n with
  | Some b => b
  | None => x00
  end.

Definition encode_codepoint (c : codepoint) : result bytes :=
  (if c <? 0x80 then Ok [byte_of_N c]
   else if c <? 0x800 then
     Ok [byte_of_N (0xC0 + c / 64); byte_of_N (0x80 + c mod 64)]
   else if (0xD800 <=? c) && (c <=? 0xDFFF) then Raise UnicodeEncodeError
   else if c <? 0x10000 then
     Ok [byte_of_N (0xE0 + c / 4096);
         byte_of_N (0x80 + (c / 64) mod 64);
         byte_of_N (0x80 + c mod 64)]
   else if c <? 0x110000 then
     Ok [byte_of_N (0xF0 + c / 262144);
         byte_of_N (0x80 + (c / 4096) mod 64);
         byte_of_N (0x80 + (c / 64) mod 64);
         byte_of_N (0x80 + c mod 64)]
   else Raise UnicodeEncodeError)%N.

Fixpoint encode_utf8 (s : pystr) : result bytes :=
  match s with
  | [] => Ok []
  | c :: r =>
      bind (encode_codepoint c) (fun bc =>
      bind (encode_utf8 r) (fun br => Ok (bc ++ br)))
  end.

(** [b.decode('utf-8')], strict: overlong forms, surrogates, code points
    above U+10FFFF, stray continuation bytes and truncated sequences
    raise [UnicodeDecodeError]. *)
Definition in_range (lo hi : N) (b : byte) : bool :=
  ((lo <=? Byte.to_N b) && (Byte.to_N b <=? hi))%N.
Definition cont (b : byte) : bool := in_range 0x80 0xBF b.
Definition low6 (b : byte) : N := (Byte.to_N b mod 64)%N.

Fixpoint decode_utf8 (bs : bytes) : result pystr :=
  match bs with
  | [] => Ok []
  | b0 :: r0 =>
      let n0 := Byte.to_N b0 in
      if (n0 <? 0x80)%N then
        bind (decode_utf8 r0) (fun s => Ok (n0 :: s))
      else if in_range 0xC2 0xDF b0 then
        match r0 with
        | b1 :: r1 =>
            if cont b1 then
              bind (decode_utf8 r1) (fun s =>
                Ok (((n0 - 0xC0) * 64 + low6 b1)%N :: s))
            else Raise UnicodeDecodeError
        | _ => Raise UnicodeDecodeError
        end
      else if in_range 0xE0 0xEF b0 then
        match r0 with
        | b1 :: b2 :: r2 =>
            let lo := if (n0 =? 0xE0)%N then 0xA0%N else 0x80%N in
            let hi := if (n0 =? 0xED)%N then 0x9F%N else 0xBF%N in
            if in_range lo hi b1 && cont b2 then
              bind (decode_utf8 r2) (fun s =>
                Ok (((n0 - 0xE0) * 4096 + low6 b1 * 64 + low6 b2)%N :: s))
            else Raise UnicodeDecodeError
        | _ => Raise UnicodeDecodeError
        end
      else if in_range 0xF0 0xF4 b0 then
        match r0 with
        | b1 :: b2 :: b3 :: r3 =>
            let lo := if (n0 =? 0xF0)%N then 0x90%N else 0x80%N in
            let hi := if (n0 =? 0xF4)%N then 0x8F%N else 0xBF%N in
            if in_range lo hi b1 && cont b2 && cont b3 then
              bind (decode_utf8 r3) (fun s =>
                Ok (((n0 - 0xF0) * 262144 + low6 b1 * 4096
                     + low6 b2 * 64 + low6 b3)%N :: s))
            else Raise UnicodeDecodeError
        | _ => Raise UnicodeDecodeError
        end
      else Raise UnicodeDecodeError
  end.

(** [a == b] on two [bytes] objects. *)
Fixpoint bytes_eqb (a b : bytes) : bool :=
  match a, b with
  | [], [] => true
  | x :: a', y :: b' => Byte.eqb x y && bytes_eqb a' b'
  | _, _ => false
  end.

(** [min(a, b)] on floats: the first argument unless the second is
    strictly smaller. *)
Definition min (a b : float) : float :=
  if PrimFloat.ltb b a then b else a.

(** Literals: [b"..."] is a [bytes] literal and [lit "..."] a [str]
    literal, both for ASCII text. *)
Definition b (s : String.string) : bytes := String.list_byte_of_string s.
Definition lit (s : String.string) : pystr :=
  map Byte.to_N (String.list_byte_of_string s).

End Py.

Import Py.

Notation "x <- m ;; k" := (bind m (fun x => k))
  (at level 61, m at next level, right associativity).
Notation "' pat <- m ;; k" :=
  (bind m (fun x => match x with pat => k end))
  (at level 61, pat pattern, m at next level, right associativity).

(** A [str] or a [bytes] argument ([isinstance(data, str)]). *)
Inductive pydata : Type :=
| PyStr (s : pystr)
| PyBytes (b : bytes).

(** ** packet.py *)

Module Packet.

(** Modelled from the spec: packet.py is not among the sources.  The
    layout is the one the specification gives as its example: a
    fixed-width sequence field (one byte, the sequence being in
    [0, 255]), a fixed 8-byte checksum field, and the remaining bytes
    as payload.  [extract] fails with [MalformedPacket] when the blob is
    shorter than the header and does not look at the checksum.  The two
    programs below take [make] and [extract] as parameters; this
    instance is used for the concrete runs. *)
Definition header_size : nat := 9.

Definition make (seq : Z) (checksum data : bytes) : bytes :=
  byte_of_N (Z.to_N (seq mod 256)) :: checksum ++ data.

Definition extract (pkt : bytes) : result (Z * bytes * bytes) :=
  if (length pkt <? header_size)%nat then Raise MalformedPacket
  else
    match pkt with
    | s :: r => Ok (int_of_byte s, firstn 8 r, skipn 8 r)
    | [] => Raise MalformedPacket
    end.

End Packet.

(** ** client.py *)

Module Client.

(** Lines 9-24. *)
Definition create_checksum (seq : Z) (data : pydata) : result bytes :=
  data_bytes <- match data with
                | PyStr s => encode_utf8 s
                | PyBytes b => Ok b
                end ;;
  let bit_sum := sum (map (fun byte => count (bin byte) ch_1) (ints data_bytes)) in
  let checksum := encode_utf8 (zfill (str bit_sum) 8) in
  checksum.

(** Lines 27-41. *)
Definition verify_checksum (seq : Z) (checksum : bytes) (data : pydata)
  : result bool :=
  data_bytes <- match data with
                | PyStr s => encode_utf8 s
                | PyBytes b => Ok b
                end ;;
  let bit_sum := sum (map (fun byte => count (bin byte) ch_1) (ints data_bytes)) in
  expected_checksum <- encode_utf8 (zfill (str bit_sum) 8) ;;
  Ok (bytes_eqb checksum expected_checksum).

(** What [main] does that the outside can see, in order. *)
Inductive event : Type :=
| Sent (seq : Z) (data pkt : bytes)   (* udt.send(pkt, sock, server_address) *)
| Started (duration : float)          (* mytimer.start() *)
| Received (rcvpkt : bytes)           (* udt.recv(sock) returned rcvpkt *)
| Aborted (seq : Z).                  (* lines 117-120 *)

(** [timeout_value] and the duration of the [Timer] object that
    [mytimer] is bound to. *)
Record timing : Type := { timeout_value : float; mytimer : float }.

(** How the [for] loop of lines 59-126 ends. *)
Inductive ending : Type :=
| Exhausted                (* all messages acknowledged *)
| GaveUp                   (* [break] at line 120 *)
| Escaped (e : exn).       (* an exception left the [try] block *)

Record run : Type :=
  { trace : list event; transfer : ending; raised : option exn }.

Definition max_retries : nat := 10.

Definition range (n : nat) : list Z := map Z.of_nat (List.seq 0 n).

Section Main.

(** [packet.make] and [packet.extract]. *)
Variable make : Z -> bytes -> bytes -> bytes.
Variable extract : bytes -> result (Z * bytes * bytes).

(** One pass through the body of the polling loop, lines 77-94.
    [received] is what [udt.recv(sock)] does: it returns a datagram or
    raises ([BlockingIOError] when there is nothing to read).  [Ok true]
    is the [break] of line 90. *)
Definition on_reply (seq : Z) (received : result bytes) : result bool :=
  rcvpkt <- received ;;
  match rcvpkt with
  | [] => Ok false
  | _ :: _ =>
      '(ack_seq, ack_checksum, dataRcvd) <- extract rcvpkt ;;
      valid <- verify_checksum ack_seq ack_checksum (PyBytes dataRcvd) ;;
      if valid then
        _ <- decode_utf8 dataRcvd ;;          (* the print of line 84 *)
        Ok (ack_seq =? seq)
      else Ok false
  end.

(** The same for the loop that waits for the reply to DONE, lines
    146-152. *)
Definition on_done_reply (seq : Z) (received : result bytes) : result bool :=
  rcvpkt <- received ;;
  match rcvpkt with
  | [] => Ok false
  | _ :: _ =>
      '(ack_seq, ack_checksum, dataRcvd) <- extract rcvpkt ;;
      valid <- verify_checksum ack_seq ack_checksum (PyBytes dataRcvd) ;;
      Ok (valid && (ack_seq =? seq))
  end.

(** [while mytimer.running() and not mytimer.timeout()]: [polls] holds
    what [udt.recv] does at each pass made before the timer expires.
    Both handlers (lines 96-100, and the bare [except] of line 153)
    swallow the exception and poll again. *)
Fixpoint poll_until (body : result bytes -> result bool)
  (polls : list (result bytes)) : bool * list event :=
  match polls with
  | [] => (false, [])
  | received :: later =>
      let log := match received with
                 | Ok rcvpkt => [Received rcvpkt]
                 | Raise _ => []
                 end in
      match body received with
      | Ok true => (true, log)
      | Ok false | Raise _ =>
          let '(ack_received, tr) := poll_until body later in
          (ack_received, log ++ tr)
      end
  end.

Definition wait_ack (seq : Z) := poll_until (on_reply seq).
Definition wait_done (seq : Z) := poll_until (on_done_reply seq).

(** Lines 67-114: [while not ack_received and retries < max_retries].
    [budget] is [max_retries - retries]; [sched] gives, for each
    transmission still to come, the polls of its waiting period.  The
    message printed at line 70 decodes [texttosend], which [main] has
    just encoded from ASCII text (see [message_text_decodes]). *)
Fixpoint send_with_retries (budget retries : nat) (seq : Z)
  (texttosend pkt : bytes) (tm : timing) (sched : list (list (result bytes)))
  : bool * timing * list (list (result bytes)) * list event :=
  match budget with
  | O => (false, tm, sched, [])
  | S budget' =>
      let '(ack_received, log) := wait_ack seq (hd [] sched) in
      let tr := Sent seq texttosend pkt :: Started (mytimer tm) :: log in
      if ack_received then (true, tm, tl sched, tr)
      else
        let retries := S retries in
        let tm :=
          if (1 <? retries)%nat then
            let timeout_value := min (timeout_value tm * 1.5) 5.0 in
            {| timeout_value := timeout_value; mytimer := timeout_value |}
          else tm in
        let '(ack_received, tm', sched', tr') :=
          send_with_retries budget' retries seq texttosend pkt tm (tl sched) in
        (ack_received, tm', sched', tr ++ tr')
  end.

(** Lines 59-126: [for message_num in range(20)]. *)
Fixpoint send_messages (nums : list Z) (seq : Z) (tm : timing)
  (sched : list (list (result bytes)))
  : ending * Z * timing * list (list (result bytes)) * list event :=
  match nums with
  | [] => (Exhausted, seq, tm, sched, [])
  | message_num :: rest =>
      match
        (texttosend <- encode_utf8 (lit "Message-" ++ str message_num
                                    ++ lit "-Seq-" ++ str seq) ;;
         checksum <- create_checksum seq (PyBytes texttosend) ;;
         Ok (texttosend, make seq checksum texttosend))
      with
      | Raise e => (Escaped e, seq, tm, sched, [])
      | Ok (texttosend, pkt) =>
          let '(ack_received, tm, sched, tr) :=
            send_with_retries max_retries 0 seq texttosend pkt tm sched in
          if ack_received then
            let '(e, seq', tm', sched', tr') :=
              send_messages rest ((seq + 1) mod 256) tm sched in
            (e, seq', tm', sched', tr ++ tr')
          else (GaveUp, seq, tm, sched, tr ++ [Aborted seq])
      end
  end.

(** Lines 138-159: the retry loop of the termination message.  The
    timer is the one left by the main loop and is not changed. *)
Fixpoint send_done_with_retries (budget retries : nat) (seq : Z)
  (texttosend pkt : bytes) (tm : timing) (sched : list (list (result bytes)))
  : bool * list event :=
  match budget with
  | O => (false, [])
  | S budget' =>
      let '(done_received, log) := wait_done seq (hd [] sched) in
      let tr := Sent seq texttosend pkt :: Started (mytimer tm) :: log in
      if done_received then (true, tr)
      else
        let '(done_received, tr') :=
          send_done_with_retries budget' (S retries) seq texttosend pkt tm
            (tl sched) in
        (done_received, tr ++ tr')
  end.

(** Lines 128-162: the [finally] block. *)
Definition finally (seq : Z) (tm : timing) (sched : list (list (result bytes)))
  : option exn * list event :=
  match
    (texttosend <- encode_utf8 (lit "DONE") ;;
     checksum <- create_checksum seq (PyBytes texttosend) ;;
     Ok (texttosend, make seq checksum texttosend))
  with
  | Raise e => (Some e, [])
  | Ok (texttosend, pkt) =>
      let '(_, tr) :=
        send_done_with_retries max_retries 0 seq texttosend pkt tm sched in
      (None, tr)
  end.

(** Lines 44-162. *)
Definition main (sched : list (list (result bytes))) : run :=
  let timeout_value := 1.0%float in
  let tm := {| timeout_value := timeout_value; mytimer := timeout_value |} in
  let seq := 0 in
  let '(e, seq, tm, sched, tr) := send_messages (range 20) seq tm sched in
  let '(failure, tr') := finally seq tm sched in
  {| trace := tr ++ tr';
     transfer := e;
     raised := match failure, e with
               | Some x, _ => Some x
               | None, Escaped x => Some x
               | None, _ => None
               end |}.

End Main.

End Client.

(** ** server.py *)

Module Server.

(** Lines 8-23. *)
Definition create_checksum (seq : Z) (data : pydata) : result bytes :=
  data_bytes <- match data with
                | PyStr s => encode_utf8 s
                | PyBytes b => Ok b
                end ;;
  let bit_sum := sum (map (fun byte => count (bin byte) ch_1) (ints data_bytes)) in
  let checksum := encode_utf8 (zfill (str bit_sum) 8) in
  checksum.

(** Lines 26-40. *)
Definition verify_checksum (seq : Z) (checksum : bytes) (data : pydata)
  : result bool :=
  data_bytes <- match data with
                | PyStr s => encode_utf8 s
                | PyBytes b => Ok b
                end ;;
  let bit_sum := sum (map (fun byte => count (bin byte) ch_1) (ints data_bytes)) in
  expected_checksum <- encode_utf8 (zfill (str bit_sum) 8) ;;
  Ok (bytes_eqb checksum expected_checksum).

Inductive control : Type := Continue | Break.

(** How [main] leaves (or does not leave) its loop. *)
Inductive status : Type :=
| Waiting              (* blocked in udt.recv: nothing more arrives *)
| Shutdown             (* [break] at line 86, after DONE *)
| Failed (e : exn).    (* [except Exception as e] at line 92 *)

Record run (addr : Type) : Type :=
  { sent : list (bytes * addr); expected_seq : Z; exit : status }.
Arguments sent {addr} r.
Arguments expected_seq {addr} r.
Arguments exit {addr} r.

Section Main.

Variable addr : Type.
Variable make : Z -> bytes -> bytes -> bytes.
Variable extract : bytes -> result (Z * bytes * bytes).

(** Lines 56-90: one pass through [while True].  The result is what
    was sent with [udt.send], the new [expected_seq], and whether the
    loop goes on; [Raise e] is an exception leaving the loop body. *)
Definition loop_body (expected_seq : Z) (received : result (bytes * addr))
  : result (list (bytes * addr) * Z * control) :=
  '(pkt, addr) <- received ;;
  '(seq, checksum, dataRcvd) <- extract pkt ;;
  valid <- verify_checksum seq checksum (PyBytes dataRcvd) ;;
  if valid then
    let expected_seq :=
      if seq =? expected_seq then (expected_seq + 1) mod 256
      else expected_seq in
    ack_message <- encode_utf8 (lit "ACK-" ++ str seq) ;;
    ack_checksum <- create_checksum seq (PyBytes ack_message) ;;
    let ack_pkt := make seq ack_checksum ack_message in
    Ok ([(ack_pkt, addr)], expected_seq,
        if bytes_eqb dataRcvd (b"DONE") then Break else Continue)
  else Ok ([], expected_seq, Continue).

(** Lines 54-97.  [inputs] is what [udt.recv] does at each call. *)
Fixpoint serve (expected_seq : Z) (inputs : list (result (bytes * addr)))
  : run addr :=
  match inputs with
  | [] => {| sent := []; expected_seq := expected_seq; exit := Waiting |}
  | received :: later =>
      match loop_body expected_seq received with
      | Raise e =>
          {| sent := []; expected_seq := expected_seq; exit := Failed e |}
      | Ok (out, expected_seq', Break) =>
          {| sent := out; expected_seq := expected_seq'; exit := Shutdown |}
      | Ok (out, expected_seq', Continue) =>
          let r := serve expected_seq' later in
          {| sent := out ++ sent r;
             expected_seq := Server.expected_seq r;
             exit := exit r |}
      end
  end.

Definition main (inputs : list (result (bytes * addr))) : run addr :=
  let expected_seq := 0 in
  serve expected_seq inputs.

End Main.

End Server.

(** ** The digest as the specification words it *)

Module Reference.

(** The number of set bits of one byte. *)
Definition set_bits (byte : byte) : Z :=
  Z.of_nat (length (filter (N.testbit (Byte.to_N byte)) [0; 1; 2; 3; 4; 5; 6; 7]%N)).

(** The count of set bits across all bytes of the payload. *)
Definition bit_count (payload : bytes) : Z :=
  fold_right (fun byte n => set_bits byte + n) 0 payload.

(** The decimal digit of weight [10 ^ i]. *)
Definition digit_at (n : Z) (i : nat) : codepoint :=
  (ch_0 + Z.to_N ((n / 10 ^ Z.of_nat i) mod 10))%N.

(** The digits of weights [10 ^ (width - 1)] down to [10 ^ 0]. *)
Definition digits_of_width (width : nat) (n : Z) : pystr :=
  map (digit_at n) (rev (List.seq 0 width)).

(** The number of digits of the decimal string of [n >= 0]: the least
    [k >= 1] with [n < 10 ^ k] (see [decimal_length_spec]). *)
Fixpoint length_upto (fuel : nat) (n : Z) : nat :=
  match fuel with
  | O => O
  | S f => if n / 10 =? 0 then 1%nat else S (length_upto f (n / 10))
  end.

Definition decimal_length (n : Z) : nat :=
  length_upto (S (Z.to_nat (Z.log2 n))) n.

(** Rendered as a decimal string. *)
Definition decimal (n : Z) : pystr := digits_of_width (decimal_length n) n.

(** Left-zero-padded to [width] characters. *)
Definition pad (width : nat) (s : pystr) : pystr :=
  repeat ch_0 (width - length s) ++ s.

(** Encoded as bytes, one byte per (ASCII) character. *)
Definition encode (s : pystr) : bytes := map byte_of_N s.

Definition digest (payload : bytes) : bytes :=
  encode (pad 8 (decimal (bit_count payload))).

End Reference.

(** The bytes of a payload given as [str] or as [bytes]. *)
Definition payload_bytes (data : pydata) : result bytes :=
  match data with
  | PyStr s => encode_utf8 s
  | PyBytes b => Ok b
  end.

(** ** Notions used to state the properties of the sender *)

(** The growth of line 112. *)
Definition backoff (t : float) : float := min (t * 1.5) 5.0.

(** The timeout in force after [retries] consecutive timeouts of one
    message that started with [T]: unchanged by the first timeout,
    multiplied by 1.5 and capped at 5.0 by each later one. *)
Definition timeout_after (T : float) (retries : nat) : float :=
  Nat.iter (retries - 1) backoff T.

(** The values [timeout_value] can take in a run. *)
Definition on_ladder (t : float) : Prop :=
  In t [1.0; 1.5; 2.25; 3.375; 5.0]%float.

(** A list of durations in which each one is the one before it or its
    [backoff], counted from [a]; [starts_at] fixes the first one. *)
Fixpoint steps (a : float) (ds : list float) : Prop :=
  match ds with
  | [] => True
  | d :: r => (d = a \/ d = backoff a) /\ steps d r
  end.

Definition starts_at (a : float) (ds : list float) : Prop :=
  match ds with
  | [] => True
  | d :: r => d = a /\ steps d r
  end.

(** Projections of a trace of the sender. *)
Definition is_sent (e : Client.event) : bool :=
  match e with
  | Client.Sent _ _ _ => true
  | _ => false
  end.

Definition durations (tr : list Client.event) : list float :=
  flat_map (fun e => match e with
                     | Client.Started d => [d]
                     | _ => []
                     end) tr.

Definition is_received (e : Client.event) : Prop :=
  match e with
  | Client.Received _ => True
  | _ => False
  end.

(** A reply that decodes to sequence [seq] and whose checksum verifies
    against its payload. *)
Definition valid_ack (extract : bytes -> result (Z * bytes * bytes))
  (seq : Z) (rcvpkt : bytes) : Prop :=
  exists ack_checksum dataRcvd,
    extract rcvpkt = Ok (seq, ack_checksum, dataRcvd)
    /\ Client.verify_checksum seq ack_checksum (PyBytes dataRcvd) = Ok true.

(** The discipline of a stop-and-wait sender whose outstanding sequence
    number is [n]: every packet sent carries [n], and the number moves
    on, to [(n + 1) mod 256], only where a valid reply for [n] has been
    received. *)
Inductive stop_and_wait (extract : bytes -> result (Z * bytes * bytes))
  : Z -> list Client.event -> Prop :=
| sw_nil n : stop_and_wait extract n []
| sw_send n data pkt tr :
    stop_and_wait extract n tr ->
    stop_and_wait extract n (Client.Sent n data pkt :: tr)
| sw_skip n e tr :
    is_sent e = false ->
    stop_and_wait extract n tr ->
    stop_and_wait extract n (e :: tr)
| sw_ack n rcvpkt tr :
    valid_ack extract n rcvpkt ->
    stop_and_wait extract ((n + 1) mod 256) tr ->
    stop_and_wait extract n (Client.Received rcvpkt :: tr).

(** All packets sent in [tr] carry the sequence number [n]. *)
Definition only_seq (n : Z) (tr : list Client.event) : Prop :=
  Forall (fun e => match e with
                   | Client.Sent s _ _ => s = n
                   | _ => True
                   end) tr.

(** The payload of message [message_num] sent with sequence [seq]
    (line 62) and the termination payload (line 130). *)
Definition message_text (message_num seq : Z) : bytes :=
  Reference.encode (lit "Message-" ++ str message_num ++ lit "-Seq-" ++ str seq).

Definition done_text : bytes := b"DONE".

(** The timeout policy of the sender as a reading of its trace.  The
    reading keeps the timeout in force, the number of retries of the
    message being sent, and that message (sequence number and payload).
    - The first transmission of a message, and of the termination
      message, uses the timeout in force: it is not reset.
    - A retransmission means that a timeout has occurred: the retry
      count goes up by one and, for a message, the timeout grows from
      the second retry on; the loop of the termination message never
      changes it.
    - An abort follows one more timeout of the message, which grows the
      timeout in the same way. *)
Definition same_message (last : option (Z * bytes)) (seq : Z) (data : bytes)
  : bool :=
  match last with
  | Some (s, d) => (s =? seq) && bytes_eqb d data
  | None => false
  end.

Definition grow (retries : nat) (t : float) : float :=
  if (1 <? retries)%nat then backoff t else t.

Definition policy_step (st : float * nat * option (Z * bytes))
  (e : Client.event) : (float * nat * option (Z * bytes)) * list float :=
  let '(tv, retries, last) := st in
  match e with
  | Client.Sent seq data _ =>
      if same_message last seq data then
        let retries := S retries in
        let tv := if bytes_eqb data done_text then tv else grow retries tv in
        ((tv, retries, last), [tv])
      else ((tv, O, Some (seq, data)), [tv])
  | Client.Aborted _ => ((grow (S retries) tv, retries, last), [])
  | _ => (st, [])
  end.

Fixpoint policy_run (st : float * nat * option (Z * bytes))
  (tr : list Client.event) : (float * nat * option (Z * bytes)) * list float :=
  match tr with
  | [] => (st, [])
  | e :: r =>
      let '(st1, out1) := policy_step st e in
      let '(st2, out2) := policy_run st1 r in
      (st2, out1 ++ out2)
  end.

(** The durations the policy gives to the timers of a run, which starts
    with the base timeout 1.0. *)
Definition policy_durations (tr : list Client.event) : list float :=
  snd (policy_run (1.0%float, O, None) tr).


(** Characters of the strings the checksum goes through. *)
Definition is_digit (c : codepoint) : Prop := (48 <= c <= 57)%N.
Definition is_ascii (c : codepoint) : Prop := (c < 128)%N.

(** ** Concrete runs, with the codec of [Packet] *)

Module Scenario.

(** The packets the two programs build. *)
Definition message (message_num seq : Z) : bytes :=
  Packet.make seq (Reference.digest (message_text message_num seq))
    (message_text message_num seq).

Definition done (seq : Z) : bytes :=
  Packet.make seq (Reference.digest done_text) done_text.

Definition ack_text (seq : Z) : bytes :=
  Reference.encode (lit "ACK-" ++ str seq).

Definition ack (seq : Z) : bytes :=
  Packet.make seq (Reference.digest (ack_text seq)) (ack_text seq).

Definition client := Client.main Packet.make Packet.extract.
Definition server := Server.main nat Packet.make Packet.extract.

(** Every transmission is answered at the first poll. *)
Definition all_acknowledged : list (list (result bytes)) :=
  map (fun seq => [Ok (ack seq)]) (Client.range 21).

(** Message 0 is answered after two timeouts; nothing arrives later. *)
Definition late_ack : list (list (result bytes)) :=
  [[]; []; [Raise BlockingIOError; Ok (ack 0)]].

(** A reply for sequence 0 with a valid checksum, whose payload is the
    single byte 0xff. *)
Definition odd_reply : bytes := Packet.make 0 (b"00000008") [xff].

End Scenario.

(** ** Notions used to state further properties of the checksum *)

(** The checksum field read back as a decimal number. *)
Definition int_of_digits (field : bytes) : Z :=
  fold_left (fun n x => 10 * n + (int_of_byte x - 48)) field 0.

Definition is_digit_byte (x : byte) : Prop := 48 <= int_of_byte x <= 57.

(** Bit [k] of a byte inverted, and the same at position [i] of a
    payload. *)
Definition flip_bit (x : byte) (k : nat) : byte :=
  byte_of_N (N.lxor (Byte.to_N x) (2 ^ N.of_nat k)).

Fixpoint flip_at (payload : bytes) (i k : nat) : bytes :=
  match payload, i with
  | [], _ => []
  | x :: r, O => flip_bit x k :: r
  | x :: r, S j => x :: flip_at r j k
  end.

(** The code points [str.encode('utf-8')] refuses: the surrogates, and
    what lies beyond U+10FFFF. *)
Definition unencodable (c : codepoint) : Prop :=
  (0xD800 <= c <= 0xDFFF \/ 0x110000 <= c)%N.

(** ** A channel that loses and corrupts nothing *)

(** The packets of a run, for a codec [make]. *)
Definition message_packet (make : Z -> bytes -> bytes -> bytes) (n : Z)
  : bytes :=
  make n (Reference.digest (message_text n n)) (message_text n n).

Definition done_packet (make : Z -> bytes -> bytes -> bytes) (seq : Z)
  : bytes :=
  make seq (Reference.digest done_text) done_text.

Definition ack_packet (make : Z -> bytes -> bytes -> bytes) (seq : Z)
  : bytes :=
  make seq (Reference.digest (Scenario.ack_text seq)) (Scenario.ack_text seq).

(** What the sender sees when each of its first [n] transmissions is
    answered, at the first poll, by the acknowledgement of its sequence
    number. *)
Definition answered_at_once (make : Z -> bytes -> bytes -> bytes) (n : nat)
  : list (list (result bytes)) :=
  map (fun seq => [Ok (ack_packet make seq)]) (Client.range n).

(** What the receiver sees when the messages 0 to 19 and then the
    termination message arrive once each, in order, from [a]. *)
Definition delivered_in_order (addr : Type)
  (make : Z -> bytes -> bytes -> bytes) (a : addr)
  : list (result (bytes * addr)) :=
  map (fun n => Ok (message_packet make n, a)) (Client.range 20)
  ++ [Ok (done_packet make 20, a)].

(** * Properties *)

(** ** Python built-ins *)

Lemma bind_Ok {A B : Type} (m : result A) (k : A -> result B) (a : A) :
  m = Ok a -> bind m k = k a.
Proof. intros ->; reflexivity. Qed.

Lemma bytes_eqb_refl (a : bytes) : bytes_eqb a a = true.
Proof.
  induction a as [|x a IH]; simpl; [reflexivity|].
  rewrite IH, andb_true_r.
  apply Byte.byte_dec_lb; reflexivity.
Qed.

Lemma bytes_eqb_eq (a c : bytes) : bytes_eqb a c = true <-> a = c.
Proof.
  split; [|intros ->; apply bytes_eqb_refl].
  revert c; induction a as [|x a IH]; intros [|y c]; simpl; try discriminate;
    [reflexivity|].
  intros H; apply andb_true_iff in H as [Hxy Hac].
  apply Byte.byte_dec_bl in Hxy; rewrite Hxy, (IH c Hac); reflexivity.
Qed.

(** ['1'] occurs in [bin(byte)] once per set bit of the byte. *)
Lemma count_bin_byte (byte : byte) :
  count (bin (int_of_byte byte)) ch_1 = Reference.set_bits byte.
Proof. destruct byte; reflexivity. Qed.

Lemma fold_left_add (l : list Z) (a : Z) :
  fold_left Z.add l a = a + fold_right Z.add 0 l.
Proof.
  revert a; induction l as [|x l IH]; intros a; simpl; [lia|].
  rewrite IH; lia.
Qed.

Lemma bit_sum_reference (data_bytes : bytes) :
  sum (map (fun byte => count (bin byte) ch_1) (ints data_bytes))
  = Reference.bit_count data_bytes.
Proof.
  unfold sum; rewrite fold_left_add, Z.add_0_l.
  induction data_bytes as [|x l IH]; simpl; [reflexivity|].
  rewrite IH, count_bin_byte; reflexivity.
Qed.

Lemma set_bits_bounds (byte : byte) : 0 <= Reference.set_bits byte <= 8.
Proof. destruct byte; vm_compute; split; discriminate. Qed.

Lemma bit_count_bounds (payload : bytes) :
  0 <= Reference.bit_count payload <= 8 * Z.of_nat (length payload).
Proof.
  induction payload as [|x l IH]; simpl; [lia|].
  pose proof (set_bits_bounds x); lia.
Qed.

(** The digits of [n] are the digit of weight 1 after the digits of
    [n / 10]. *)
Lemma digit_at_succ (n : Z) (i : nat) :
  0 <= n -> Reference.digit_at n (S i) = Reference.digit_at (n / 10) i.
Proof.
  intros Hn; unfold Reference.digit_at.
  rewrite Nat2Z.inj_succ, Z.pow_succ_r by lia.
  rewrite Z.div_div by lia; reflexivity.
Qed.

Lemma digits_of_width_succ (k : nat) (n : Z) :
  0 <= n ->
  Reference.digits_of_width (S k) n
  = Reference.digits_of_width k (n / 10) ++ [(ch_0 + Z.to_N (n mod 10))%N].
Proof.
  intros Hn; unfold Reference.digits_of_width.
  rewrite <- cons_seq, <- seq_shift; simpl rev.
  rewrite map_app, <- map_rev, map_map; simpl.
  f_equal.
  - apply map_ext; intros i; apply digit_at_succ, Hn.
  - unfold Reference.digit_at; simpl; rewrite Z.div_1_r; reflexivity.
Qed.

(** [digits] pushes exactly the positional digits in front of [acc]. *)
Lemma digits_positional (fuel : nat) (n : Z) (acc : pystr) :
  0 <= n ->
  digits fuel n acc
  = Reference.digits_of_width (Reference.length_upto fuel n) n ++ acc.
Proof.
  revert n acc; induction fuel as [|f IH]; intros n acc Hn; simpl;
    [reflexivity|].
  destruct (n / 10 =? 0) eqn:E.
  - rewrite digits_of_width_succ by assumption; reflexivity.
  - rewrite IH by (apply Z.div_pos; lia).
    rewrite digits_of_width_succ by assumption.
    rewrite <- app_assoc; reflexivity.
Qed.

Lemma str_nonneg_decimal (n : Z) :
  0 <= n -> str_nonneg n = Reference.decimal n.
Proof.
  intros Hn; unfold str_nonneg, Reference.decimal, Reference.decimal_length.
  rewrite digits_positional, app_nil_r by assumption; reflexivity.
Qed.

Lemma str_decimal (n : Z) : 0 <= n -> str n = Reference.decimal n.
Proof.
  intros Hn; unfold str.
  destruct (n <? 0) eqn:E; [apply Z.ltb_lt in E; lia|].
  apply str_nonneg_decimal, Hn.
Qed.

(** [Reference.decimal_length n] is the least [k >= 1] with
    [n < 10 ^ k]. *)
Lemma length_upto_upper (fuel : nat) (n : Z) :
  0 <= n < 2 ^ Z.of_nat fuel ->
  n < 10 ^ Z.of_nat (Reference.length_upto fuel n).
Proof.
  revert n; induction fuel as [|f IH]; intros n Hn.
  - simpl in *; lia.
  - cbn [Reference.length_upto].
    rewrite Nat2Z.inj_succ, Z.pow_succ_r in Hn by lia.
    destruct (n / 10 =? 0) eqn:E.
    + apply Z.eqb_eq in E. apply Z.div_small_iff in E; lia.
    + assert (H10 : 0 <= n / 10 < 2 ^ Z.of_nat f).
      { split; [apply Z.div_pos; lia|].
        apply Z.div_lt_upper_bound; lia. }
      specialize (IH _ H10).
      rewrite Nat2Z.inj_succ, Z.pow_succ_r by lia.
      pose proof (Z.div_mod n 10 ltac:(lia)).
      pose proof (Z.mod_pos_bound n 10 ltac:(lia)). lia.
Qed.

Lemma length_upto_lower (fuel : nat) (n : Z) :
  0 <= n ->
  (Reference.length_upto fuel n <= 1)%nat
  \/ 10 ^ (Z.of_nat (Reference.length_upto fuel n) - 1) <= n.
Proof.
  revert n; induction fuel as [|f IH]; intros n Hn; [left; simpl; lia|].
  cbn [Reference.length_upto].
  destruct (n / 10 =? 0) eqn:E; [left; lia|right].
  apply Z.eqb_neq in E.
  assert (H10 : 0 < n / 10) by (pose proof (Z.div_pos n 10); lia).
  pose proof (Z.div_mod n 10 ltac:(lia)).
  pose proof (Z.mod_pos_bound n 10 ltac:(lia)).
  replace (Z.of_nat (S (Reference.length_upto f (n / 10))) - 1)
    with (Z.of_nat (Reference.length_upto f (n / 10))) by lia.
  destruct (IH (n / 10) ltac:(lia)) as [Hs|Hl].
  - destruct (Reference.length_upto f (n / 10)) as [|[|k]]; [| |lia].
    + change (10 ^ Z.of_nat 0) with 1; lia.
    + change (10 ^ Z.of_nat 1) with 10; lia.
  - destruct (Reference.length_upto f (n / 10)) as [|k];
      [change (10 ^ Z.of_nat 0) with 1; lia|].
    rewrite Nat2Z.inj_succ, Z.pow_succ_r by lia.
    replace (Z.of_nat (S k) - 1) with (Z.of_nat k) in Hl by lia. lia.
Qed.

Lemma decimal_length_spec (n : Z) :
  0 <= n ->
  (1 <= Reference.decimal_length n)%nat
  /\ n < 10 ^ Z.of_nat (Reference.decimal_length n)
  /\ (Reference.decimal_length n = 1%nat
      \/ 10 ^ (Z.of_nat (Reference.decimal_length n) - 1) <= n).
Proof.
  intros Hn; unfold Reference.decimal_length.
  set (fuel := S (Z.to_nat (Z.log2 n))).
  assert (Hpos : (1 <= Reference.length_upto fuel n)%nat).
  { unfold fuel; cbn [Reference.length_upto].
    destruct (n / 10 =? 0); lia. }
  split; [exact Hpos|split].
  - apply length_upto_upper; split; [exact Hn|].
    unfold fuel; rewrite Nat2Z.inj_succ, Z2Nat.id by apply Z.log2_nonneg.
    destruct (Z.eq_dec n 0) as [->|Hz]; [reflexivity|].
    apply Z.log2_spec; lia.
  - destruct (length_upto_lower fuel n Hn); [left; lia|right; assumption].
Qed.

Lemma decimal_length_small (n : Z) (k : nat) :
  (1 <= k)%nat -> 0 <= n < 10 ^ Z.of_nat k ->
  (Reference.decimal_length n <= k)%nat.
Proof.
  intros Hk [Hn Hlt].
  destruct (decimal_length_spec n Hn) as (_ & _ & [H1|Hlow]); [lia|].
  destruct (le_lt_dec (Reference.decimal_length n) k) as [|Hgt]; [assumption|].
  exfalso.
  assert (10 ^ Z.of_nat k <= 10 ^ (Z.of_nat (Reference.decimal_length n) - 1))
    by (apply Z.pow_le_mono_r; lia).
  lia.
Qed.

Lemma decimal_length_large (n : Z) (k : nat) :
  10 ^ Z.of_nat k <= n -> (k < Reference.decimal_length n)%nat.
Proof.
  intros Hle.
  assert (Hn : 0 <= n) by (pose proof (Z.pow_nonneg 10 (Z.of_nat k)); lia).
  destruct (decimal_length_spec n Hn) as (_ & Hup & _).
  destruct (le_lt_dec (Reference.decimal_length n) k) as [Hk|]; [|assumption].
  exfalso.
  assert (10 ^ Z.of_nat (Reference.decimal_length n) <= 10 ^ Z.of_nat k)
    by (apply Z.pow_le_mono_r; lia).
  lia.
Qed.

Lemma decimal_length_eq (n : Z) :
  length (Reference.decimal n) = Reference.decimal_length n.
Proof.
  unfold Reference.decimal, Reference.digits_of_width.
  rewrite length_map, length_rev, length_seq; reflexivity.
Qed.

Lemma decimal_digits (n : Z) : Forall is_digit (Reference.decimal n).
Proof.
  unfold Reference.decimal, Reference.digits_of_width.
  apply Forall_map, Forall_forall; intros i _.
  unfold is_digit, Reference.digit_at, ch_0.
  pose proof (Z.mod_pos_bound (n / 10 ^ Z.of_nat i) 10 ltac:(lia)). lia.
Qed.

Lemma pad_digits (width : nat) (s : pystr) :
  Forall is_digit s -> Forall is_digit (Reference.pad width s).
Proof.
  intros Hs; unfold Reference.pad; apply Forall_app; split; [|exact Hs].
  apply Forall_forall; intros c Hc; apply repeat_spec in Hc; subst c.
  unfold is_digit, ch_0; lia.
Qed.

Lemma digit_ascii (s : pystr) : Forall is_digit s -> Forall is_ascii s.
Proof.
  apply Forall_impl; unfold is_digit, is_ascii; intros c; lia.
Qed.

(** [zfill] on a string without a sign is plain padding. *)
Lemma zfill_pad (s : pystr) (width : nat) :
  Forall is_digit s -> zfill s width = Reference.pad width s.
Proof.
  intros Hs; unfold zfill, Reference.pad.
  destruct (width <=? length s)%nat eqn:E.
  - apply Nat.leb_le in E.
    replace (width - length s)%nat with 0%nat by lia; reflexivity.
  - destruct s as [|c r]; [rewrite app_nil_r; reflexivity|].
    inversion Hs as [|? ? Hc _]; subst.
    unfold is_digit in Hc.
    replace (N.eqb c ch_plus) with false
      by (symmetry; apply N.eqb_neq; unfold ch_plus; lia).
    replace (N.eqb c ch_minus) with false
      by (symmetry; apply N.eqb_neq; unfold ch_minus; lia).
    reflexivity.
Qed.

(** ASCII text is encoded one byte per character, and decoded back. *)
Lemma encode_utf8_ascii (s : pystr) :
  Forall is_ascii s -> encode_utf8 s = Ok (Reference.encode s).
Proof.
  induction 1 as [|c r Hc Hr IH]; [reflexivity|].
  cbn [encode_utf8]; unfold encode_codepoint.
  unfold is_ascii in Hc; apply N.ltb_lt in Hc; rewrite Hc.
  cbn [bind]; rewrite IH; reflexivity.
Qed.

(** ** The checksum functions *)

Lemma checksum_field (n : Z) :
  0 <= n ->
  encode_utf8 (zfill (str n) 8)
  = Ok (Reference.encode (Reference.pad 8 (Reference.decimal n))).
Proof.
  intros Hn.
  rewrite str_decimal, zfill_pad by (assumption || apply decimal_digits).
  apply encode_utf8_ascii, digit_ascii, pad_digits, decimal_digits.
Qed.

Lemma client_create_checksum_eq (seq : Z) (data : pydata) :
  Client.create_checksum seq data
  = (p <- payload_bytes data ;; Ok (Reference.digest p)).
Proof.
  unfold Client.create_checksum, payload_bytes.
  destruct (match data with PyStr s => encode_utf8 s | PyBytes b => Ok b end)
    as [p|e]; [|reflexivity].
  cbn [bind]; rewrite bit_sum_reference.
  apply checksum_field, bit_count_bounds.
Qed.

Lemma server_create_checksum_eq (seq : Z) (data : pydata) :
  Server.create_checksum seq data
  = (p <- payload_bytes data ;; Ok (Reference.digest p)).
Proof. exact (client_create_checksum_eq seq data). Qed.

Lemma client_verify_checksum_eq (seq : Z) (checksum : bytes) (data : pydata) :
  Client.verify_checksum seq checksum data
  = (p <- payload_bytes data ;; Ok (bytes_eqb checksum (Reference.digest p))).
Proof.
  unfold Client.verify_checksum, payload_bytes.
  destruct (match data with PyStr s => encode_utf8 s | PyBytes b => Ok b end)
    as [p|e]; [|reflexivity].
  cbn [bind]; rewrite bit_sum_reference.
  rewrite checksum_field by apply bit_count_bounds; reflexivity.
Qed.

Lemma server_verify_checksum_eq (seq : Z) (checksum : bytes) (data : pydata) :
  Server.verify_checksum seq checksum data
  = (p <- payload_bytes data ;; Ok (bytes_eqb checksum (Reference.digest p))).
Proof. exact (client_verify_checksum_eq seq checksum data). Qed.

(** C2: for every payload and any two sequence numbers, [create_checksum]
    gives the same digest, in the client and in the server, and that
    digest is the reference one: the count of set bits across all bytes
    of the payload, rendered as a decimal string, left-zero-padded to 8
    characters, encoded as bytes.  The payload is given as [bytes], or
    as a [str] that is first encoded; the result depends on nothing but
    the payload. *)
Theorem create_checksum_is_reference_digest (s s' : Z) (data : pydata) :
  Client.create_checksum s data = Client.create_checksum s' data
  /\ Server.create_checksum s data = Server.create_checksum s' data
  /\ Client.create_checksum s data
     = (p <- payload_bytes data ;; Ok (Reference.digest p))
  /\ Server.create_checksum s data
     = (p <- payload_bytes data ;; Ok (Reference.digest p))
  /\ forall p : bytes,
       Client.create_checksum s (PyBytes p) = Ok (Reference.digest p)
       /\ Server.create_checksum s (PyBytes p) = Ok (Reference.digest p).
Proof.
  split; [rewrite !client_create_checksum_eq; reflexivity|].
  split; [rewrite !server_create_checksum_eq; reflexivity|].
  split; [apply client_create_checksum_eq|].
  split; [apply server_create_checksum_eq|].
  intros p; split.
  - apply client_create_checksum_eq.
  - apply server_create_checksum_eq.
Qed.

(** C8: for every payload [p] and sequence number [s],
    [create_checksum(s, p)] returns a digest and
    [verify_checksum(s, digest, p)] returns [True], in the client and
    in the server. *)
Theorem verify_accepts_created_checksum (s : Z) (p : bytes) :
  (exists c, Client.create_checksum s (PyBytes p) = Ok c
             /\ Client.verify_checksum s c (PyBytes p) = Ok true)
  /\ (exists c, Server.create_checksum s (PyBytes p) = Ok c
                /\ Server.verify_checksum s c (PyBytes p) = Ok true).
Proof.
  split; exists (Reference.digest p); split.
  - apply client_create_checksum_eq.
  - rewrite client_verify_checksum_eq; cbn; rewrite bytes_eqb_refl; reflexivity.
  - apply server_create_checksum_eq.
  - rewrite server_verify_checksum_eq; cbn; rewrite bytes_eqb_refl; reflexivity.
Qed.

(** The same for a payload given as [str], when it can be encoded. *)
Lemma verify_accepts_created_checksum_data (s : Z) (data : pydata) (c : bytes) :
  Client.create_checksum s data = Ok c ->
  Client.verify_checksum s c data = Ok true.
Proof.
  rewrite client_create_checksum_eq, client_verify_checksum_eq.
  destruct (payload_bytes data) as [p|e]; cbn; [|discriminate].
  intros [= <-]; rewrite bytes_eqb_refl; reflexivity.
Qed.

(** The length of the digest: 8 bytes, or more when the count of set
    bits has more than 8 decimal digits. *)
Lemma digest_length (p : bytes) :
  length (Reference.digest p)
  = Nat.max 8 (Reference.decimal_length (Reference.bit_count p)).
Proof.
  unfold Reference.digest, Reference.encode, Reference.pad.
  rewrite length_map, length_app, repeat_length, decimal_length_eq; lia.
Qed.

Lemma digest_length_8 (p : bytes) :
  length (Reference.digest p) = 8%nat <-> Reference.bit_count p < 10 ^ 8.
Proof.
  rewrite digest_length.
  pose proof (bit_count_bounds p) as Hb.
  split; intros H.
  - destruct (Z_lt_le_dec (Reference.bit_count p) (10 ^ 8)) as [|Hge];
      [assumption|].
    pose proof (decimal_length_large (Reference.bit_count p) 8 Hge); lia.
  - pose proof (decimal_length_small (Reference.bit_count p) 8 ltac:(lia)
                  ltac:(split; [lia|exact H])); lia.
Qed.

(** Every payload shorter than 12 500 000 bytes has an 8-byte digest. *)
Lemma create_checksum_length_8 (s : Z) (p : bytes) :
  Z.of_nat (length p) < 12500000 ->
  exists c, Client.create_checksum s (PyBytes p) = Ok c /\ length c = 8%nat.
Proof.
  intros Hlen; exists (Reference.digest p); split;
    [apply client_create_checksum_eq|].
  apply digest_length_8.
  pose proof (bit_count_bounds p) as Hb.
  change (10 ^ 8) with 100000000; lia.
Qed.



(** ** Strings the programs build *)

Lemma str_ascii (n : Z) : Forall is_ascii (str n).
Proof.
  unfold str; destruct (n <? 0) eqn:E.
  - apply Z.ltb_lt in E; constructor; [unfold is_ascii, ch_minus; lia|].
    rewrite str_nonneg_decimal by lia.
    apply digit_ascii, decimal_digits.
  - apply Z.ltb_ge in E; rewrite str_nonneg_decimal by lia.
    apply digit_ascii, decimal_digits.
Qed.

Lemma lit_ascii_app (s : String.string) (r : pystr) :
  forallb (fun c => (c <? 128)%N) (lit s) = true ->
  Forall is_ascii r -> Forall is_ascii (lit s ++ r).
Proof.
  intros Hs Hr; apply Forall_app; split; [|exact Hr].
  apply Forall_forall; intros c Hc.
  rewrite forallb_forall in Hs; apply N.ltb_lt, Hs, Hc.
Qed.

(** [f"ACK-{seq}".encode('utf-8')] never raises. *)
Lemma ack_message_ok (seq : Z) :
  encode_utf8 (lit "ACK-" ++ str seq)
  = Ok (Reference.encode (lit "ACK-" ++ str seq)).
Proof.
  apply encode_utf8_ascii, lit_ascii_app; [reflexivity|apply str_ascii].
Qed.

(** [f"Message-{message_num}-Seq-{seq}".encode('utf-8')] never raises. *)
Lemma message_ok (message_num seq : Z) :
  encode_utf8 (lit "Message-" ++ str message_num ++ lit "-Seq-" ++ str seq)
  = Ok (Reference.encode
          (lit "Message-" ++ str message_num ++ lit "-Seq-" ++ str seq)).
Proof.
  apply encode_utf8_ascii, lit_ascii_app; [reflexivity|].
  apply Forall_app; split; [apply str_ascii|].
  apply lit_ascii_app; [reflexivity|apply str_ascii].
Qed.

Lemma succ_mod_256_neq (n : Z) : (n + 1) mod 256 <> n.
Proof.
  pose proof (Z.div_mod (n + 1) 256 ltac:(lia)).
  pose proof (Z.mod_pos_bound (n + 1) 256 ltac:(lia)). lia.
Qed.

(** ** The receiver *)

Section ServerProperties.

Variable addr : Type.
Variable make : Z -> bytes -> bytes -> bytes.
Variable extract : bytes -> result (Z * bytes * bytes).

Let loop_body := Server.loop_body addr make extract.
Let serve := Server.serve addr make extract.

(** The body of the loop on a packet that decodes and verifies. *)
Lemma loop_body_valid (expected_seq : Z) (pkt : bytes) (a : addr)
  (seq : Z) (checksum dataRcvd : bytes) :
  extract pkt = Ok (seq, checksum, dataRcvd) ->
  Server.verify_checksum seq checksum (PyBytes dataRcvd) = Ok true ->
  loop_body expected_seq (Ok (pkt, a))
  = Ok ([(make seq
            (Reference.digest (Reference.encode (lit "ACK-" ++ str seq)))
            (Reference.encode (lit "ACK-" ++ str seq)), a)],
        (if seq =? expected_seq then (expected_seq + 1) mod 256
         else expected_seq),
        if bytes_eqb dataRcvd (b"DONE") then Server.Break
        else Server.Continue).
Proof.
  intros Hx Hv; unfold loop_body, Server.loop_body.
  cbn [bind]; rewrite Hx; cbn [bind]; rewrite Hv; cbn [bind].
  rewrite ack_message_ok; cbn [bind].
  rewrite server_create_checksum_eq; reflexivity.
Qed.

(** C1: on a packet whose checksum verifies against its payload, the
    receiver sends exactly one acknowledgement, to the sender of the
    packet; it is built by [packet.make] from the received sequence
    number, the digest of the payload ["ACK-<seq>"] and that payload.
    [expected_seq] becomes [(expected_seq + 1) mod 256] if and only if
    the received sequence equals it, and is unchanged otherwise. *)
Theorem server_acks_valid_packet (expected_seq : Z) (pkt : bytes) (a : addr)
  (seq : Z) (checksum dataRcvd : bytes) :
  extract pkt = Ok (seq, checksum, dataRcvd) ->
  Server.verify_checksum seq checksum (PyBytes dataRcvd) = Ok true ->
  exists (ack_message ack_checksum : bytes) (expected_seq' : Z)
         (next : Server.control),
    encode_utf8 (lit "ACK-" ++ str seq) = Ok ack_message
    /\ Server.create_checksum seq (PyBytes ack_message) = Ok ack_checksum
    /\ Server.loop_body addr make extract expected_seq (Ok (pkt, a))
       = Ok ([(make seq ack_checksum ack_message, a)], expected_seq', next)
    /\ (expected_seq' = (expected_seq + 1) mod 256 <-> seq = expected_seq)
    /\ (seq <> expected_seq -> expected_seq' = expected_seq)
    /\ (next = Server.Break <-> dataRcvd = b"DONE").
Proof.
  intros Hx Hv.
  exists (Reference.encode (lit "ACK-" ++ str seq)).
  exists (Reference.digest (Reference.encode (lit "ACK-" ++ str seq))).
  exists (if seq =? expected_seq then (expected_seq + 1) mod 256
          else expected_seq).
  exists (if bytes_eqb dataRcvd (b"DONE") then Server.Break
          else Server.Continue).
  split; [apply ack_message_ok|].
  split; [apply server_create_checksum_eq|].
  split; [apply (loop_body_valid _ _ _ _ _ _ Hx Hv)|].
  pose proof (succ_mod_256_neq expected_seq) as Hne.
  destruct (seq =? expected_seq) eqn:E;
    [apply Z.eqb_eq in E|apply Z.eqb_neq in E].
  - split; [tauto|split; [congruence|]].
    destruct (bytes_eqb dataRcvd (b"DONE")) eqn:D.
    + apply bytes_eqb_eq in D; tauto.
    + split; [discriminate|].
      intros ->; rewrite bytes_eqb_refl in D; discriminate.
  - split; [split; [congruence|contradiction]|split; [reflexivity|]].
    destruct (bytes_eqb dataRcvd (b"DONE")) eqn:D.
    + apply bytes_eqb_eq in D; tauto.
    + split; [discriminate|].
      intros ->; rewrite bytes_eqb_refl in D; discriminate.
Qed.

(** C6: on a packet whose checksum does not verify against its payload
    the receiver sends nothing and keeps [expected_seq]; it goes back to
    waiting, and the rest of the run is the run it would have had
    without that packet. *)
Theorem server_drops_corrupted_packet (expected_seq : Z) (pkt : bytes)
  (a : addr) (seq : Z) (checksum dataRcvd : bytes) :
  extract pkt = Ok (seq, checksum, dataRcvd) ->
  Server.verify_checksum seq checksum (PyBytes dataRcvd) = Ok false ->
  Server.loop_body addr make extract expected_seq (Ok (pkt, a))
  = Ok ([], expected_seq, Server.Continue)
  /\ forall later,
       Server.serve addr make extract expected_seq (Ok (pkt, a) :: later)
       = Server.serve addr make extract expected_seq later.
Proof.
  intros Hx Hv.
  assert (Hb : Server.loop_body addr make extract expected_seq (Ok (pkt, a))
               = Ok ([], expected_seq, Server.Continue)).
  { unfold Server.loop_body; cbn [bind]; rewrite Hx; cbn [bind].
    rewrite Hv; reflexivity. }
  split; [exact Hb|].
  intros later; cbn [Server.serve]; rewrite Hb.
  destruct (Server.serve addr make extract expected_seq later); reflexivity.
Qed.

(** A blob that [packet.extract] cannot decode ends the loop: the
    handler of line 92 is outside [while True]. *)
Lemma serve_undecodable (expected_seq : Z) (pkt : bytes) (a : addr)
  (e : exn) (later : list (result (bytes * addr))) :
  extract pkt = Raise e ->
  serve expected_seq (Ok (pkt, a) :: later)
  = {| Server.sent := []; Server.expected_seq := expected_seq;
       Server.exit := Server.Failed e |}.
Proof.
  intros Hx; unfold serve; cbn [Server.serve].
  unfold Server.loop_body; cbn [bind]; rewrite Hx; reflexivity.
Qed.

End ServerProperties.

(** ** The sender: accepting a reply *)

Section ClientProperties.

Variable make : Z -> bytes -> bytes -> bytes.
Variable extract : bytes -> result (Z * bytes * bytes).

Let on_reply := Client.on_reply extract.
Let on_done_reply := Client.on_done_reply extract.
Let wait_ack := Client.wait_ack extract.
Let wait_done := Client.wait_done extract.

Lemma on_reply_true (seq : Z) (received : result bytes) :
  on_reply seq received = Ok true ->
  exists rcvpkt, received = Ok rcvpkt /\ valid_ack extract seq rcvpkt.
Proof.
  unfold on_reply, Client.on_reply.
  destruct received as [rcvpkt|e]; cbn [bind]; [|discriminate].
  destruct rcvpkt as [|x r]; [discriminate|].
  destruct (extract (x :: r)) as [[[ack_seq ack_checksum] dataRcvd]|e] eqn:Hx;
    cbn [bind]; [|discriminate].
  destruct (Client.verify_checksum ack_seq ack_checksum (PyBytes dataRcvd))
    as [[|]|e] eqn:Hv; cbn [bind]; try discriminate.
  destruct (decode_utf8 dataRcvd); cbn [bind]; [|discriminate].
  intros [= Hs]; apply Z.eqb_eq in Hs; subst ack_seq.
  exists (x :: r); split; [reflexivity|].
  exists ack_checksum, dataRcvd; split; assumption.
Qed.

Lemma on_done_reply_true (seq : Z) (received : result bytes) :
  on_done_reply seq received = Ok true ->
  exists rcvpkt, received = Ok rcvpkt /\ valid_ack extract seq rcvpkt.
Proof.
  unfold on_done_reply, Client.on_done_reply.
  destruct received as [rcvpkt|e]; cbn [bind]; [|discriminate].
  destruct rcvpkt as [|x r]; [discriminate|].
  destruct (extract (x :: r)) as [[[ack_seq ack_checksum] dataRcvd]|e] eqn:Hx;
    cbn [bind]; [|discriminate].
  destruct (Client.verify_checksum ack_seq ack_checksum (PyBytes dataRcvd))
    as [[|]|e] eqn:Hv; cbn [bind]; try discriminate.
  cbn [andb]; intros [= Hs]; apply Z.eqb_eq in Hs; subst ack_seq.
  exists (x :: r); split; [reflexivity|].
  exists ack_checksum, dataRcvd; split; assumption.
Qed.

(** The waiting loop logs nothing but received datagrams, and when it
    ends with an acknowledgement, the last one is the accepted reply. *)
Lemma poll_until_log (body : result bytes -> result bool)
  (polls : list (result bytes)) :
  Forall is_received (snd (Client.poll_until body polls)).
Proof.
  induction polls as [|received later IH]; cbn [Client.poll_until];
    [constructor|].
  assert (Hlog : Forall is_received
                   match received with
                   | Ok rcvpkt => [Client.Received rcvpkt]
                   | Raise _ => []
                   end)
    by (destruct received; repeat constructor).
  destruct (Client.poll_until body later) as [ack tr]; cbn [snd] in IH.
  destruct (body received) as [[|]|e]; cbn [snd];
    try assumption; apply Forall_app; split; assumption.
Qed.

Lemma poll_until_true (body : result bytes -> result bool)
  (P : bytes -> Prop) (polls : list (result bytes)) (tr : list Client.event) :
  (forall received, body received = Ok true ->
                    exists rcvpkt, received = Ok rcvpkt /\ P rcvpkt) ->
  Client.poll_until body polls = (true, tr) ->
  exists tr0 rcvpkt, tr = tr0 ++ [Client.Received rcvpkt] /\ P rcvpkt.
Proof.
  intros Hbody; revert tr; induction polls as [|received later IH]; intros tr;
    cbn [Client.poll_until]; [discriminate|].
  destruct (body received) as [[|]|e] eqn:Hb.
  - intros [= <-].
    destruct (Hbody _ Hb) as (rcvpkt & -> & HP).
    exists [], rcvpkt; split; [reflexivity|assumption].
  - destruct (Client.poll_until body later) as [ack tr'].
    intros [= -> <-].
    destruct (IH tr' eq_refl) as (tr0 & rcvpkt & -> & HP).
    eexists (_ ++ tr0), rcvpkt.
    rewrite <- app_assoc; split; [reflexivity|assumption].
  - destruct (Client.poll_until body later) as [ack tr'].
    intros [= -> <-].
    destruct (IH tr' eq_refl) as (tr0 & rcvpkt & -> & HP).
    eexists (_ ++ tr0), rcvpkt.
    rewrite <- app_assoc; split; [reflexivity|assumption].
Qed.

Lemma wait_ack_true (seq : Z) (polls : list (result bytes))
  (tr : list Client.event) :
  wait_ack seq polls = (true, tr) ->
  exists tr0 rcvpkt,
    tr = tr0 ++ [Client.Received rcvpkt] /\ valid_ack extract seq rcvpkt.
Proof. apply poll_until_true, on_reply_true. Qed.

Lemma wait_done_true (seq : Z) (polls : list (result bytes))
  (tr : list Client.event) :
  wait_done seq polls = (true, tr) ->
  exists tr0 rcvpkt,
    tr = tr0 ++ [Client.Received rcvpkt] /\ valid_ack extract seq rcvpkt.
Proof. apply poll_until_true, on_done_reply_true. Qed.

(** ** The sender: one packet in flight *)

Lemma received_only_seq (n : Z) (tr : list Client.event) :
  Forall is_received tr -> only_seq n tr.
Proof.
  apply Forall_impl; intros [ | | | ]; simpl; tauto.
Qed.

Lemma sw_only_app (n : Z) (t1 t2 : list Client.event) :
  only_seq n t1 ->
  stop_and_wait extract n t2 -> stop_and_wait extract n (t1 ++ t2).
Proof.
  intros H1 H2; induction H1 as [|e t1 He _ IH]; [exact H2|].
  cbn [app]; destruct e as [s d p|d|r|s].
  - subst s; apply sw_send, IH.
  - apply sw_skip; [reflexivity|exact IH].
  - apply sw_skip; [reflexivity|exact IH].
  - apply sw_skip; [reflexivity|exact IH].
Qed.

Lemma sw_acked_app (n : Z) (t1 t2 : list Client.event) (rcvpkt : bytes) :
  only_seq n t1 -> valid_ack extract n rcvpkt ->
  stop_and_wait extract ((n + 1) mod 256) t2 ->
  stop_and_wait extract n (t1 ++ Client.Received rcvpkt :: t2).
Proof.
  intros H1 Hv H2; apply sw_only_app; [exact H1|].
  apply sw_ack; assumption.
Qed.

(** Under the discipline, between a packet [n] and a later packet with
    another number a valid reply for [n] has been received. *)
Lemma sw_next_needs_ack (n m : Z) (d' p' : bytes) (l2 l3 : list Client.event) :
  stop_and_wait extract n (l2 ++ Client.Sent m d' p' :: l3) ->
  m <> n ->
  exists rcvpkt, In (Client.Received rcvpkt) l2 /\ valid_ack extract n rcvpkt.
Proof.
  intros H Hne; induction l2 as [|e l2 IH]; cbn [app] in H.
  - inversion H; subst; try contradiction; discriminate.
  - inversion H as [|? ? ? ? Hs|? ? ? _ Hs|? r ? Hv _]; subst.
    + destruct (IH Hs) as (r & Hin & Hv); exists r; split; [right|]; assumption.
    + destruct (IH Hs) as (r & Hin & Hv); exists r; split; [right|]; assumption.
    + exists r; split; [left; reflexivity|assumption].
Qed.

Lemma sw_decompose (n0 n m : Z) (d p d' p' : bytes)
  (l1 l2 l3 : list Client.event) :
  stop_and_wait extract n0
    (l1 ++ Client.Sent n d p :: l2 ++ Client.Sent m d' p' :: l3) ->
  m <> n ->
  exists rcvpkt, In (Client.Received rcvpkt) l2 /\ valid_ack extract n rcvpkt.
Proof.
  revert n0; induction l1 as [|e l1 IH]; intros n0 H Hne; cbn [app] in H.
  - inversion H; subst.
    + eapply sw_next_needs_ack; eassumption.
    + discriminate.
  - inversion H; subst; eapply IH; eassumption.
Qed.

(** One message: every transmission carries [seq], and the loop ends
    with [ack_received] only on a valid reply for [seq]. *)
Lemma send_with_retries_seq (budget retries : nat) (seq : Z)
  (texttosend pkt : bytes) (tm : Client.timing)
  (sched : list (list (result bytes))) :
  match Client.send_with_retries extract budget retries seq texttosend pkt
          tm sched with
  | (ack_received, _, _, tr) =>
      only_seq seq tr
      /\ (ack_received = true ->
          exists tr0 rcvpkt,
            tr = tr0 ++ [Client.Received rcvpkt]
            /\ valid_ack extract seq rcvpkt)
  end.
Proof.
  revert retries tm sched; induction budget as [|budget IH];
    intros retries tm sched; cbn [Client.send_with_retries].
  - split; [constructor|discriminate].
  - destruct (Client.wait_ack extract seq (hd [] sched)) as [ack log] eqn:W.
    assert (Hlog : only_seq seq log).
    { apply received_only_seq.
      pose proof (poll_until_log (Client.on_reply extract seq) (hd [] sched))
        as Hl.
      unfold Client.wait_ack in W; rewrite W in Hl; exact Hl. }
    destruct ack.
    + split.
      * constructor; [reflexivity|constructor; [exact I|exact Hlog]].
      * intros _. destruct (wait_ack_true _ _ _ W) as (tr0 & r & -> & Hv).
        exists (Client.Sent seq texttosend pkt
                :: Client.Started (Client.mytimer tm) :: tr0), r.
        split; [reflexivity|exact Hv].
    + match goal with
      | |- context [Client.send_with_retries extract budget ?r seq _ _ ?t ?s] =>
          specialize (IH r t s);
          destruct (Client.send_with_retries extract budget r seq
                      texttosend pkt t s) as [[[ack' tm'] sched'] tr']
      end.
      destruct IH as [Ho Ha]; split.
      * constructor; [reflexivity|constructor; [exact I|]].
        apply Forall_app; split; assumption.
      * intros Hack; destruct (Ha Hack) as (tr0 & r & -> & Hv).
        exists (Client.Sent seq texttosend pkt
                :: Client.Started (Client.mytimer tm) :: log ++ tr0), r.
        split; [|exact Hv].
        cbn [app]; rewrite <- app_assoc; reflexivity.
Qed.

Lemma send_done_with_retries_seq (budget retries : nat) (seq : Z)
  (texttosend pkt : bytes) (tm : Client.timing)
  (sched : list (list (result bytes))) :
  only_seq seq
    (snd (Client.send_done_with_retries extract budget retries seq
            texttosend pkt tm sched)).
Proof.
  revert retries sched; induction budget as [|budget IH];
    intros retries sched; cbn [Client.send_done_with_retries];
    [constructor|].
  pose proof (poll_until_log (Client.on_done_reply extract seq) (hd [] sched))
    as Hl.
  unfold Client.wait_done.
  destruct (Client.poll_until (Client.on_done_reply extract seq) (hd [] sched))
    as [ack log]; cbn [snd] in Hl.
  apply (received_only_seq seq) in Hl.
  destruct ack; cbn [snd].
  - constructor; [reflexivity|constructor; [exact I|exact Hl]].
  - specialize (IH (S retries) (tl sched)).
    destruct (Client.send_done_with_retries extract budget (S retries) seq
                texttosend pkt tm (tl sched)) as [ack' tr']; cbn [snd] in *.
    constructor; [reflexivity|constructor; [exact I|]].
    apply Forall_app; split; assumption.
Qed.

Lemma finally_seq (seq : Z) (tm : Client.timing)
  (sched : list (list (result bytes))) :
  only_seq seq (snd (Client.finally make extract seq tm sched)).
Proof.
  unfold Client.finally.
  destruct (bind (encode_utf8 (lit "DONE")) _) as [[texttosend pkt]|e];
    [|constructor].
  pose proof (send_done_with_retries_seq Client.max_retries 0 seq texttosend
                pkt tm sched) as H.
  destruct (Client.send_done_with_retries extract Client.max_retries 0 seq
              texttosend pkt tm sched); exact H.
Qed.

(** The [for] loop keeps the discipline, whatever follows it with the
    sequence number it ends with. *)
Lemma send_messages_sw (nums : list Z) (seq : Z) (tm : Client.timing)
  (sched : list (list (result bytes))) :
  match Client.send_messages make extract nums seq tm sched with
  | (_, seq', _, _, tr) =>
      forall t2, stop_and_wait extract seq' t2 ->
                 stop_and_wait extract seq (tr ++ t2)
  end.
Proof.
  revert seq tm sched; induction nums as [|message_num rest IH];
    intros seq tm sched; cbn [Client.send_messages]; [intros t2 H; exact H|].
  destruct (bind (encode_utf8 _) _) as [[texttosend pkt]|e];
    [|intros t2 H; exact H].
  pose proof (send_with_retries_seq Client.max_retries 0 seq texttosend pkt
                tm sched) as Hs.
  destruct (Client.send_with_retries extract Client.max_retries 0 seq
              texttosend pkt tm sched) as [[[ack tm1] sched1] tr1].
  destruct Hs as [Ho Ha]; destruct ack.
  - specialize (IH ((seq + 1) mod 256) tm1 sched1).
    destruct (Client.send_messages make extract rest ((seq + 1) mod 256)
                tm1 sched1) as [[[[e seq'] tm'] sched'] tr'].
    intros t2 H2.
    destruct (Ha eq_refl) as (tr0 & r & -> & Hv).
    rewrite <- !app_assoc; cbn [app].
    apply sw_acked_app; [|exact Hv|apply IH, H2].
    apply Forall_app in Ho; tauto.
  - intros t2 H2; rewrite <- app_assoc.
    apply sw_only_app; [exact Ho|].
    apply sw_skip; [reflexivity|exact H2].
Qed.

Lemma main_stop_and_wait (sched : list (list (result bytes))) :
  stop_and_wait extract 0 (Client.trace (Client.main make extract sched)).
Proof.
  unfold Client.main.
  pose proof (send_messages_sw (Client.range 20) 0
                {| Client.timeout_value := 1.0; Client.mytimer := 1.0 |} sched)
    as Hm.
  destruct (Client.send_messages make extract (Client.range 20) 0 _ sched)
    as [[[[e seq] tm] sched'] tr].
  pose proof (finally_seq seq tm sched') as Hf.
  destruct (Client.finally make extract seq tm sched') as [failure tr'].
  cbn [Client.trace snd] in *.
  apply Hm. rewrite <- (app_nil_r tr').
  apply sw_only_app; [exact Hf|constructor].
Qed.

(** C5: in every run of the sender, between the transmission of a packet
    with sequence number [n] and any later transmission of a packet with
    another sequence number, the sender has received a reply that
    decodes to sequence [n] and whose checksum verifies against its
    payload.  So a new sequence number, [(n + 1) mod 256], goes out only
    once [n] is acknowledged; after an abort the sequence number is not
    advanced. *)
Theorem one_packet_in_flight (sched : list (list (result bytes)))
  (n m : Z) (d p d' p' : bytes) (l1 l2 l3 : list Client.event) :
  Client.trace (Client.main make extract sched)
  = l1 ++ Client.Sent n d p :: l2 ++ Client.Sent m d' p' :: l3 ->
  m <> n ->
  exists rcvpkt ack_checksum dataRcvd,
    In (Client.Received rcvpkt) l2
    /\ extract rcvpkt = Ok (n, ack_checksum, dataRcvd)
    /\ Client.verify_checksum n ack_checksum (PyBytes dataRcvd) = Ok true.
Proof.
  intros Htr Hne.
  pose proof (main_stop_and_wait sched) as Hsw; rewrite Htr in Hsw.
  destruct (sw_decompose _ _ _ _ _ _ _ _ _ _ Hsw Hne)
    as (r & Hin & c & dat & Hx & Hv).
  exists r, c, dat; repeat split; assumption.
Qed.

(** ** The sender: the termination message *)

Lemma prepare_message (message_num seq : Z) :
  (texttosend <- encode_utf8 (lit "Message-" ++ str message_num
                              ++ lit "-Seq-" ++ str seq) ;;
   checksum <- Client.create_checksum seq (PyBytes texttosend) ;;
   Ok (texttosend, make seq checksum texttosend))
  = Ok (message_text message_num seq,
        make seq (Reference.digest (message_text message_num seq))
          (message_text message_num seq)).
Proof.
  rewrite message_ok; cbn [bind].
  rewrite client_create_checksum_eq; reflexivity.
Qed.

Lemma prepare_done (seq : Z) :
  (texttosend <- encode_utf8 (lit "DONE") ;;
   checksum <- Client.create_checksum seq (PyBytes texttosend) ;;
   Ok (texttosend, make seq checksum texttosend))
  = Ok (done_text, make seq (Reference.digest done_text) done_text).
Proof.
  change (encode_utf8 (lit "DONE")) with (@Ok bytes done_text); cbn [bind].
  rewrite client_create_checksum_eq; reflexivity.
Qed.

Lemma message_text_not_done (message_num seq : Z) :
  message_text message_num seq <> done_text.
Proof.
  intros H; apply (f_equal (hd x00)) in H; vm_compute in H; discriminate.
Qed.

Lemma filter_received (tr : list Client.event) :
  Forall is_received tr -> filter is_sent tr = [].
Proof.
  induction 1 as [|e tr He _ IH]; [reflexivity|].
  destruct e; try contradiction; exact IH.
Qed.

(** The transmissions of one message are copies of the same packet, at
    least one and at most [budget] of them, and exactly [budget] when no
    acknowledgement is accepted. *)
Lemma send_with_retries_sends (budget retries : nat) (seq : Z)
  (texttosend pkt : bytes) (tm : Client.timing)
  (sched : list (list (result bytes))) :
  match Client.send_with_retries extract budget retries seq texttosend pkt
          tm sched with
  | (ack_received, _, _, tr) =>
      exists k,
        filter is_sent tr = repeat (Client.Sent seq texttosend pkt) k
        /\ (k <= budget)%nat /\ (0 < budget -> 0 < k)%nat
        /\ (ack_received = false -> k = budget)
  end.
Proof.
  revert retries tm sched; induction budget as [|budget IH];
    intros retries tm sched; cbn [Client.send_with_retries].
  - exists 0%nat; repeat split; lia.
  - pose proof (poll_until_log (Client.on_reply extract seq) (hd [] sched))
      as Hl.
    unfold Client.wait_ack.
    destruct (Client.poll_until (Client.on_reply extract seq) (hd [] sched))
      as [ack log]; cbn [snd] in Hl.
    apply filter_received in Hl.
    destruct ack.
    + exists 1%nat; cbn [filter is_sent]; rewrite Hl.
      repeat split; try lia; discriminate.
    + match goal with
      | |- context [Client.send_with_retries extract budget ?r seq _ _ ?t ?s] =>
          specialize (IH r t s);
          destruct (Client.send_with_retries extract budget r seq
                      texttosend pkt t s) as [[[ack' tm'] sched'] tr']
      end.
      destruct IH as (k & Hk & Hle & _ & Hall).
      exists (S k); cbn [filter is_sent app].
      rewrite filter_app, Hl, Hk.
      repeat split; try lia.
      intros Hf; rewrite (Hall Hf); reflexivity.
Qed.

Lemma send_done_with_retries_sends (budget retries : nat) (seq : Z)
  (texttosend pkt : bytes) (tm : Client.timing)
  (sched : list (list (result bytes))) :
  match Client.send_done_with_retries extract budget retries seq texttosend
          pkt tm sched with
  | (done_received, tr) =>
      exists k,
        filter is_sent tr = repeat (Client.Sent seq texttosend pkt) k
        /\ (k <= budget)%nat /\ (0 < budget -> 0 < k)%nat
        /\ (done_received = false -> k = budget)
  end.
Proof.
  revert retries sched; induction budget as [|budget IH];
    intros retries sched; cbn [Client.send_done_with_retries].
  - exists 0%nat; repeat split; lia.
  - pose proof (poll_until_log (Client.on_done_reply extract seq)
                  (hd [] sched)) as Hl.
    unfold Client.wait_done.
    destruct (Client.poll_until (Client.on_done_reply extract seq)
                (hd [] sched)) as [ack log]; cbn [snd] in Hl.
    apply filter_received in Hl.
    destruct ack.
    + exists 1%nat; cbn [filter is_sent]; rewrite Hl.
      repeat split; try lia; discriminate.
    + specialize (IH (S retries) (tl sched)).
      destruct (Client.send_done_with_retries extract budget (S retries) seq
                  texttosend pkt tm (tl sched)) as [ack' tr'].
      destruct IH as (k & Hk & Hle & _ & Hall).
      exists (S k); cbn [filter is_sent app].
      rewrite filter_app, Hl, Hk.
      repeat split; try lia.
      intros Hf; rewrite (Hall Hf); reflexivity.
Qed.

(** The main loop ends by exhaustion or by giving up, and sends
    messages only. *)
Lemma send_messages_ending (nums : list Z) (seq : Z) (tm : Client.timing)
  (sched : list (list (result bytes))) :
  match Client.send_messages make extract nums seq tm sched with
  | (e, _, _, _, tr) =>
      (e = Client.Exhausted \/ e = Client.GaveUp)
      /\ forall s d p, In (Client.Sent s d p) tr -> d <> done_text
  end.
Proof.
  revert seq tm sched; induction nums as [|message_num rest IH];
    intros seq tm sched; cbn [Client.send_messages].
  - split; [left; reflexivity|intros s d p []].
  - rewrite prepare_message.
    pose proof (send_with_retries_sends Client.max_retries 0 seq
                  (message_text message_num seq)
                  (make seq (Reference.digest (message_text message_num seq))
                     (message_text message_num seq)) tm sched) as Hs.
    destruct (Client.send_with_retries extract Client.max_retries 0 seq _ _
                tm sched) as [[[ack tm1] sched1] tr1].
    destruct Hs as (k & Hk & _).
    assert (H1 : forall s d p, In (Client.Sent s d p) tr1 -> d <> done_text).
    { intros s d p Hin.
      assert (Hf : In (Client.Sent s d p) (filter is_sent tr1))
        by (apply filter_In; split; [exact Hin|reflexivity]).
      rewrite Hk in Hf; apply repeat_spec in Hf.
      injection Hf as _ -> _; apply message_text_not_done. }
    destruct ack.
    + specialize (IH ((seq + 1) mod 256) tm1 sched1).
      destruct (Client.send_messages make extract rest ((seq + 1) mod 256)
                  tm1 sched1) as [[[[e seq'] tm'] sched'] tr'].
      destruct IH as [He Hd]; split; [exact He|].
      intros s d p Hin; apply in_app_or in Hin as [Hin|Hin];
        [eapply H1|eapply Hd]; eassumption.
    + split; [right; reflexivity|].
      intros s d p Hin; apply in_app_or in Hin as [Hin|[Hin|[]]];
        [eapply H1; eassumption|discriminate].
Qed.


(** ** The sender: the timeout *)

Lemma durations_app (t1 t2 : list Client.event) :
  durations (t1 ++ t2) = durations t1 ++ durations t2.
Proof. apply flat_map_app. Qed.

Lemma durations_received (tr : list Client.event) :
  Forall is_received tr -> durations tr = [].
Proof.
  induction 1 as [|e tr He _ IH]; [reflexivity|].
  destruct e; try contradiction; exact IH.
Qed.

Lemma durations_attempt (seq : Z) (texttosend pkt : bytes) (d : float)
  (tr : list Client.event) :
  durations (Client.Sent seq texttosend pkt :: Client.Started d :: tr)
  = d :: durations tr.
Proof. reflexivity. Qed.

Lemma starts_at_steps (a : float) (ds : list float) :
  starts_at a ds -> steps a ds.
Proof. destruct ds as [|d r]; [trivial|]; intros [-> H]; split; auto. Qed.

Lemma starts_at_backoff_steps (a : float) (ds : list float) :
  starts_at (backoff a) ds -> steps a ds.
Proof. destruct ds as [|d r]; [trivial|]; intros [-> H]; split; auto. Qed.

(** What a timeout does to [timeout_value] and [mytimer], lines
    106-114. *)
Lemma timeout_after_succ (T : float) (retries : nat) :
  timeout_after T (S retries)
  = if (1 <? S retries)%nat then backoff (timeout_after T retries)
    else timeout_after T retries.
Proof.
  unfold timeout_after; destruct retries as [|r]; [reflexivity|].
  cbn [Nat.ltb Nat.leb]. replace (S (S r) - 1)%nat with (S (S r - 1)) by lia.
  reflexivity.
Qed.

(** One message: the timer started for the transmission that follows
    [j] timeouts lasts [timeout_after T j], where [T] is the value the
    message started with. *)
Lemma send_with_retries_durations (budget retries : nat) (seq : Z)
  (texttosend pkt : bytes) (T : float) (tm : Client.timing)
  (sched : list (list (result bytes))) :
  Client.timeout_value tm = timeout_after T retries ->
  Client.mytimer tm = Client.timeout_value tm ->
  match Client.send_with_retries extract budget retries seq texttosend pkt
          tm sched with
  | (ack_received, tm', _, tr) =>
      exists k,
        durations tr = map (timeout_after T) (List.seq retries k)
        /\ (k <= budget)%nat /\ (0 < budget -> 0 < k)%nat
        /\ (ack_received = true -> 0 < k)%nat
        /\ Client.timeout_value tm'
           = timeout_after T (retries + if ack_received then k - 1 else k)
        /\ Client.mytimer tm' = Client.timeout_value tm'
  end.
Proof.
  revert retries tm sched; induction budget as [|budget IH];
    intros retries tm sched Htv Htm; cbn [Client.send_with_retries].
  - exists 0%nat; rewrite Nat.add_0_r.
    repeat split; try lia; try assumption; discriminate.
  - pose proof (poll_until_log (Client.on_reply extract seq) (hd [] sched))
      as Hl.
    unfold Client.wait_ack.
    destruct (Client.poll_until (Client.on_reply extract seq) (hd [] sched))
      as [ack log]; cbn [snd] in Hl.
    apply durations_received in Hl.
    destruct ack.
    + exists 1%nat. cbn [durations flat_map app List.seq map].
      fold (durations log); rewrite Hl, Htm, Htv, Nat.add_0_r.
      repeat split; try lia; assumption.
    + set (tm2 := if (1 <? S retries)%nat
                  then {| Client.timeout_value :=
                            min (Client.timeout_value tm * 1.5) 5.0;
                          Client.mytimer :=
                            min (Client.timeout_value tm * 1.5) 5.0 |}
                  else tm).
      assert (Htv2 : Client.timeout_value tm2 = timeout_after T (S retries)).
      { rewrite timeout_after_succ; unfold tm2.
        destruct (1 <? S retries)%nat; cbn [Client.timeout_value];
          [rewrite Htv; reflexivity|exact Htv]. }
      assert (Htm2 : Client.mytimer tm2 = Client.timeout_value tm2)
        by (unfold tm2; destruct (1 <? S retries)%nat;
            [reflexivity|exact Htm]).
      specialize (IH (S retries) tm2 (tl sched) Htv2 Htm2).
      destruct (Client.send_with_retries extract budget (S retries) seq
                  texttosend pkt tm2 (tl sched)) as [[[ack' tm'] sched'] tr'].
      destruct IH as (k & Hk & Hle & _ & Hack & Htv' & Htm').
      exists (S k). cbn [durations flat_map app List.seq map].
      fold (durations (log ++ tr')); rewrite durations_app, Hl, Hk, Htm, Htv.
      repeat split; try lia; try assumption.
      rewrite Htv'; f_equal.
      destruct ack'; [specialize (Hack eq_refl)|]; lia.
Qed.

(** One message carries the timeout on: what follows starts with the
    value the message ends with. *)
Lemma send_with_retries_steps (budget retries : nat) (seq : Z)
  (texttosend pkt : bytes) (tm : Client.timing)
  (sched : list (list (result bytes))) :
  Client.mytimer tm = Client.timeout_value tm ->
  match Client.send_with_retries extract budget retries seq texttosend pkt
          tm sched with
  | (_, tm', _, tr) =>
      Client.mytimer tm' = Client.timeout_value tm'
      /\ forall t2, starts_at (Client.timeout_value tm') t2 ->
                    starts_at (Client.timeout_value tm) (durations tr ++ t2)
  end.
Proof.
  revert retries tm sched; induction budget as [|budget IH];
    intros retries tm sched Htm; cbn [Client.send_with_retries].
  - split; [exact Htm|intros t2 H; exact H].
  - pose proof (poll_until_log (Client.on_reply extract seq) (hd [] sched))
      as Hl.
    unfold Client.wait_ack.
    destruct (Client.poll_until (Client.on_reply extract seq) (hd [] sched))
      as [ack log]; cbn [snd] in Hl.
    apply durations_received in Hl.
    destruct ack.
    + split; [exact Htm|intros t2 H].
      cbn [durations flat_map app]; fold (durations log); rewrite Hl, Htm.
      split; [reflexivity|apply starts_at_steps, H].
    + match goal with
      | |- context [Client.send_with_retries extract budget ?r seq _ _ ?t ?s] =>
          set (tm2 := t)
      end.
      assert (Htm2 : Client.mytimer tm2 = Client.timeout_value tm2)
        by (unfold tm2; destruct (1 <? S retries)%nat;
            [reflexivity|exact Htm]).
      assert (H2 : Client.timeout_value tm2 = Client.timeout_value tm
                   \/ Client.timeout_value tm2
                      = backoff (Client.timeout_value tm))
        by (unfold tm2; destruct (1 <? S retries)%nat;
            [right; reflexivity|left; reflexivity]).
      specialize (IH (S retries) tm2 (tl sched) Htm2).
      destruct (Client.send_with_retries extract budget (S retries) seq
                  texttosend pkt tm2 (tl sched)) as [[[ack' tm'] sched'] tr'].
      destruct IH as [Htm' Hcont]; split; [exact Htm'|intros t2 H].
      specialize (Hcont t2 H).
      cbn [durations flat_map app]; fold (durations (log ++ tr')).
      rewrite durations_app, Hl, Htm; cbn [app].
      split; [reflexivity|].
      destruct H2 as [E|E]; rewrite E in Hcont;
        [apply starts_at_steps|apply starts_at_backoff_steps]; exact Hcont.
Qed.

Lemma send_messages_steps (nums : list Z) (seq : Z) (tm : Client.timing)
  (sched : list (list (result bytes))) :
  Client.mytimer tm = Client.timeout_value tm ->
  match Client.send_messages make extract nums seq tm sched with
  | (_, _, tm', _, tr) =>
      Client.mytimer tm' = Client.timeout_value tm'
      /\ forall t2, starts_at (Client.timeout_value tm') t2 ->
                    starts_at (Client.timeout_value tm) (durations tr ++ t2)
  end.
Proof.
  revert seq tm sched; induction nums as [|message_num rest IH];
    intros seq tm sched Htm; cbn [Client.send_messages];
    [split; [exact Htm|intros t2 H; exact H]|].
  rewrite prepare_message.
  pose proof (send_with_retries_steps Client.max_retries 0 seq
                (message_text message_num seq)
                (make seq (Reference.digest (message_text message_num seq))
                   (message_text message_num seq)) tm sched Htm) as Hs.
  destruct (Client.send_with_retries extract Client.max_retries 0 seq _ _
              tm sched) as [[[ack tm1] sched1] tr1].
  destruct Hs as [Htm1 Hcont]; destruct ack.
  - specialize (IH ((seq + 1) mod 256) tm1 sched1 Htm1).
    destruct (Client.send_messages make extract rest ((seq + 1) mod 256)
                tm1 sched1) as [[[[e seq'] tm'] sched'] tr'].
    destruct IH as [Htm' Hrest]; split; [exact Htm'|intros t2 H].
    rewrite durations_app, <- app_assoc; apply Hcont, Hrest, H.
  - split; [exact Htm1|intros t2 H].
    rewrite durations_app, <- app_assoc; apply Hcont; exact H.
Qed.

Lemma send_done_with_retries_durations (budget retries : nat) (seq : Z)
  (texttosend pkt : bytes) (tm : Client.timing)
  (sched : list (list (result bytes))) :
  starts_at (Client.mytimer tm)
    (durations (snd (Client.send_done_with_retries extract budget retries seq
                       texttosend pkt tm sched))).
Proof.
  revert retries sched; induction budget as [|budget IH];
    intros retries sched; cbn [Client.send_done_with_retries]; [exact I|].
  pose proof (poll_until_log (Client.on_done_reply extract seq) (hd [] sched))
    as Hl.
  unfold Client.wait_done.
  destruct (Client.poll_until (Client.on_done_reply extract seq) (hd [] sched))
    as [ack log]; cbn [snd] in Hl.
  apply durations_received in Hl.
  destruct ack; cbn [snd].
  - rewrite durations_attempt, Hl; split; [reflexivity|exact I].
  - specialize (IH (S retries) (tl sched)).
    destruct (Client.send_done_with_retries extract budget (S retries) seq
                texttosend pkt tm (tl sched)) as [ack' tr']; cbn [snd] in *.
    rewrite durations_app, durations_attempt, Hl; cbn [app].
    split; [reflexivity|apply starts_at_steps, IH].
Qed.

Lemma main_durations (sched : list (list (result bytes))) :
  starts_at 1.0 (durations (Client.trace (Client.main make extract sched))).
Proof.
  unfold Client.main.
  pose proof (send_messages_steps (Client.range 20) 0
                {| Client.timeout_value := 1.0; Client.mytimer := 1.0 |} sched
                eq_refl) as Hm.
  destruct (Client.send_messages make extract (Client.range 20) 0 _ sched)
    as [[[[e seq] tm] sched'] tr].
  destruct Hm as [Htm Hcont].
  unfold Client.finally; rewrite prepare_done.
  pose proof (send_done_with_retries_durations Client.max_retries 0 seq
                done_text (make seq (Reference.digest done_text) done_text)
                tm sched') as Hd.
  destruct (Client.send_done_with_retries extract Client.max_retries 0 seq
              done_text _ tm sched') as [done_received tr'].
  cbn [Client.trace snd] in *.
  rewrite durations_app; apply Hcont; rewrite <- Htm; exact Hd.
Qed.

Lemma send_with_retries_head (budget retries : nat) (seq : Z)
  (texttosend pkt : bytes) (tm : Client.timing)
  (sched : list (list (result bytes))) :
  match Client.send_with_retries extract (S budget) retries seq texttosend
          pkt tm sched with
  | (_, _, _, tr) =>
      exists rest,
        tr = Client.Sent seq texttosend pkt
             :: Client.Started (Client.mytimer tm) :: rest
  end.
Proof.
  cbn [Client.send_with_retries].
  destruct (Client.wait_ack extract seq (hd [] sched)) as [ack log].
  destruct ack; [exists log; reflexivity|].
  match goal with
  | |- context [Client.send_with_retries extract budget ?r seq _ _ ?t ?s] =>
      destruct (Client.send_with_retries extract budget r seq
                  texttosend pkt t s) as [[[ack' tm'] sched'] tr']
  end.
  exists (log ++ tr'); reflexivity.
Qed.

Lemma main_first_timer (sched : list (list (result bytes))) :
  hd_error (durations (Client.trace (Client.main make extract sched)))
  = Some 1.0%float.
Proof.
  unfold Client.main.
  change (Client.range 20) with (0 :: map Z.of_nat (List.seq 1 19)).
  cbn [Client.send_messages]; rewrite prepare_message.
  change Client.max_retries with (S 9).
  pose proof (send_with_retries_head 9 0 0 (message_text 0 0)
                (make 0 (Reference.digest (message_text 0 0))
                   (message_text 0 0))
                {| Client.timeout_value := 1.0; Client.mytimer := 1.0 |} sched)
    as Hh.
  destruct (Client.send_with_retries extract (S 9) 0 0 _ _ _ sched)
    as [[[ack tm1] sched1] tr1].
  destruct Hh as [rest ->]; destruct ack.
  - match goal with
    | |- context [Client.send_messages make extract ?l ?n ?t ?s] =>
        destruct (Client.send_messages make extract l n t s)
          as [[[[e seq] tm] sched'] tr]
    end.
    destruct (Client.finally make extract seq tm sched'); reflexivity.
  - destruct (Client.finally make extract 0 tm1 sched1); reflexivity.
Qed.

Lemma ladder_step (a d : float) :
  on_ladder a -> d = a \/ d = backoff a ->
  on_ladder d /\ PrimFloat.leb a d = true.
Proof.
  unfold on_ladder; cbn [In].
  intros [<-|[<-|[<-|[<-|[<-|[]]]]]] [->| ->]; vm_compute; intuition.
Qed.

Lemma steps_pairs (a : float) (ds : list float) (i : nat) :
  on_ladder a -> steps a ds ->
  match nth_error ds i, nth_error ds (S i) with
  | Some x, Some y =>
      (y = x \/ y = backoff x) /\ PrimFloat.leb x y = true
  | _, _ => True
  end.
Proof.
  revert a i; induction ds as [|d r IH]; intros a i Ha Hs.
  - destruct i; exact I.
  - destruct Hs as [Hd Hr].
    destruct (ladder_step a d Ha Hd) as [Hld _].
    destruct i as [|i]; [|exact (IH d i Hld Hr)].
    cbn [nth_error]; destruct r as [|y r']; [exact I|].
    destruct Hr as [Hy _]; cbn [nth_error].
    split; [exact Hy|apply (ladder_step d y Hld Hy)].
Qed.

(** The trace read by the policy. *)
Lemma policy_run_app (st : float * nat * option (Z * bytes))
  (t1 t2 : list Client.event) :
  policy_run st (t1 ++ t2)
  = let '(st1, out1) := policy_run st t1 in
    let '(st2, out2) := policy_run st1 t2 in
    (st2, out1 ++ out2).
Proof.
  revert st; induction t1 as [|e t1 IH]; intros st; cbn [app policy_run].
  - destruct (policy_run st t2); reflexivity.
  - destruct (policy_step st e) as [st1 out1]; rewrite IH.
    destruct (policy_run st1 t1) as [st2 out2].
    destruct (policy_run st2 t2) as [st3 out3].
    rewrite app_assoc; reflexivity.
Qed.

Lemma policy_run_received (st : float * nat * option (Z * bytes))
  (log : list Client.event) :
  Forall is_received log -> policy_run st log = (st, []).
Proof.
  destruct st as [[tv r] last].
  induction 1 as [|e log He _ IH]; [reflexivity|].
  destruct e; try contradiction.
  cbn [policy_run policy_step]; rewrite IH; reflexivity.
Qed.

Lemma same_message_refl (seq : Z) (data : bytes) :
  same_message (Some (seq, data)) seq data = true.
Proof. cbn; rewrite Z.eqb_refl, bytes_eqb_refl; reflexivity. Qed.

Lemma bytes_eqb_neq (a c : bytes) : a <> c -> bytes_eqb a c = false.
Proof.
  intros H; destruct (bytes_eqb a c) eqn:E; [|reflexivity].
  apply bytes_eqb_eq in E; contradiction.
Qed.

(** One message, read by the policy.  The reading starts either before
    the first transmission, or after a transmission that timed out. *)
Lemma send_with_retries_policy (budget retries : nat) (seq : Z)
  (texttosend pkt : bytes) (tm : Client.timing)
  (sched : list (list (result bytes)))
  (Tp : float) (rm : nat) (last : option (Z * bytes)) :
  texttosend <> done_text ->
  Client.mytimer tm = Client.timeout_value tm ->
  (retries = O /\ same_message last seq texttosend = false
   /\ Tp = Client.timeout_value tm)
  \/ (retries = S rm /\ last = Some (seq, texttosend)
      /\ Client.timeout_value tm = grow retries Tp) ->
  match Client.send_with_retries extract budget retries seq texttosend pkt
          tm sched with
  | (ack_received, tm', _, tr) =>
      match policy_run (Tp, rm, last) tr with
      | (st', out) =>
          out = durations tr
          /\ Client.mytimer tm' = Client.timeout_value tm'
          /\ match budget with
             | O => st' = (Tp, rm, last) /\ tm' = tm /\ ack_received = false
             | S _ =>
                 exists Tp' rm',
                   st' = (Tp', rm', Some (seq, texttosend))
                   /\ Client.timeout_value tm'
                      = (if ack_received then Tp' else grow (S rm') Tp')
             end
      end
  end.
Proof.
  intros Htext.
  revert retries tm sched Tp rm last; induction budget as [|budget IH];
    intros retries tm sched Tp rm last Htm Hst;
    cbn [Client.send_with_retries].
  - cbn [policy_run]; repeat split; assumption.
  - pose proof (poll_until_log (Client.on_reply extract seq) (hd [] sched))
      as Hl.
    unfold Client.wait_ack.
    destruct (Client.poll_until (Client.on_reply extract seq) (hd [] sched))
      as [ack log]; cbn [snd] in Hl.
    pose proof (durations_received _ Hl) as Hd1.
    assert (Hsent : policy_step (Tp, rm, last)
                      (Client.Sent seq texttosend pkt)
                    = ((Client.timeout_value tm, retries,
                        Some (seq, texttosend)),
                       [Client.timeout_value tm])).
    { cbn [policy_step].
      destruct Hst as [(-> & Hfresh & ->)|(-> & -> & ->)].
      - rewrite Hfresh; reflexivity.
      - rewrite same_message_refl, (bytes_eqb_neq _ _ Htext); reflexivity. }
    set (st1 := (Client.timeout_value tm, retries, Some (seq, texttosend))).
    assert (Hhead : forall rest,
               policy_run (Tp, rm, last)
                 (Client.Sent seq texttosend pkt
                  :: Client.Started (Client.mytimer tm) :: log ++ rest)
               = let '(st2, out2) := policy_run st1 rest in
                 (st2, Client.timeout_value tm :: out2)).
    { intros rest. cbn [policy_run]; rewrite Hsent.
      cbn [policy_step]; fold st1.
      rewrite policy_run_app, (policy_run_received st1 log Hl).
      destruct (policy_run st1 rest); reflexivity. }
    destruct ack.
    + pose proof (Hhead []) as H0; rewrite app_nil_r in H0.
      rewrite H0; cbn [policy_run].
      rewrite durations_attempt, Hd1, Htm.
      split; [reflexivity|split; [reflexivity|]].
      exists (Client.timeout_value tm), retries; split; reflexivity.
    + set (tm2 := if (1 <? S retries)%nat
                  then {| Client.timeout_value :=
                            min (Client.timeout_value tm * 1.5) 5.0;
                          Client.mytimer :=
                            min (Client.timeout_value tm * 1.5) 5.0 |}
                  else tm).
      assert (Htm2 : Client.mytimer tm2 = Client.timeout_value tm2)
        by (unfold tm2; destruct (1 <? S retries)%nat;
            [reflexivity|exact Htm]).
      assert (Htv2 : Client.timeout_value tm2
                     = grow (S retries) (Client.timeout_value tm))
        by (unfold tm2, grow; destruct (1 <? S retries)%nat; reflexivity).
      specialize (IH (S retries) tm2 (tl sched) (Client.timeout_value tm)
                    retries (Some (seq, texttosend)) Htm2
                    (or_intror (conj eq_refl (conj eq_refl Htv2)))).
      destruct (Client.send_with_retries extract budget (S retries) seq
                  texttosend pkt tm2 (tl sched)) as [[[ack' tm'] sched'] tr'].
      cbn [app]; rewrite Hhead; fold st1 in IH.
      destruct (policy_run st1 tr') as [st' out].
      destruct IH as (Hout & Htm' & Hend).
      rewrite durations_attempt, durations_app, Hd1, Htm, Hout.
      split; [reflexivity|split; [exact Htm'|]].
      destruct budget as [|budget'].
      * destruct Hend as (-> & -> & ->).
        exists (Client.timeout_value tm), retries.
        split; [reflexivity|exact Htv2].
      * exact Hend.
Qed.

(** The loop of the termination message, read by the policy. *)
Lemma send_done_with_retries_policy (budget retries : nat) (seq : Z)
  (pkt : bytes) (tm : Client.timing) (sched : list (list (result bytes)))
  (rm : nat) (last : option (Z * bytes)) :
  same_message last seq done_text = false \/ last = Some (seq, done_text) ->
  snd (policy_run (Client.mytimer tm, rm, last)
         (snd (Client.send_done_with_retries extract budget retries seq
                 done_text pkt tm sched)))
  = durations (snd (Client.send_done_with_retries extract budget retries seq
                      done_text pkt tm sched)).
Proof.
  revert retries sched rm last; induction budget as [|budget IH];
    intros retries sched rm last Hlast;
    cbn [Client.send_done_with_retries]; [reflexivity|].
  pose proof (poll_until_log (Client.on_done_reply extract seq) (hd [] sched))
    as Hl.
  unfold Client.wait_done.
  destruct (Client.poll_until (Client.on_done_reply extract seq) (hd [] sched))
    as [ack log]; cbn [snd] in Hl.
  pose proof (durations_received _ Hl) as Hd1.
  assert (Hsent : exists r1,
             policy_step (Client.mytimer tm, rm, last)
               (Client.Sent seq done_text pkt)
             = ((Client.mytimer tm, r1, Some (seq, done_text)),
                [Client.mytimer tm])).
  { cbn [policy_step]. destruct Hlast as [Hfresh| ->].
    - rewrite Hfresh; exists O; reflexivity.
    - rewrite same_message_refl, bytes_eqb_refl; exists (S rm); reflexivity. }
  destruct Hsent as [r1 Hsent].
  set (st1 := (Client.mytimer tm, r1, Some (seq, done_text))).
  assert (Hhead : forall rest,
             policy_run (Client.mytimer tm, rm, last)
               (Client.Sent seq done_text pkt
                :: Client.Started (Client.mytimer tm) :: log ++ rest)
             = let '(st2, out2) := policy_run st1 rest in
               (st2, Client.mytimer tm :: out2)).
  { intros rest. cbn [policy_run]; rewrite Hsent.
    cbn [policy_step]; fold st1.
    rewrite policy_run_app, (policy_run_received st1 log Hl).
    destruct (policy_run st1 rest); reflexivity. }
  destruct ack; cbn [snd].
  - pose proof (Hhead []) as H0; rewrite app_nil_r in H0.
    rewrite H0; cbn [policy_run snd].
    rewrite durations_attempt, Hd1; reflexivity.
  - specialize (IH (S retries) (tl sched) r1 (Some (seq, done_text))
                  (or_intror eq_refl)).
    destruct (Client.send_done_with_retries extract budget (S retries) seq
                done_text pkt tm (tl sched)) as [ack' tr']; cbn [snd] in *.
    cbn [app]; rewrite Hhead; fold st1 in IH.
    destruct (policy_run st1 tr') as [st' out]; cbn [snd] in *.
    rewrite durations_attempt, durations_app, Hd1, IH; reflexivity.
Qed.

(** The main loop, read by the policy from the timeout it starts
    with. *)
Lemma send_messages_policy (nums : list Z) (seq : Z) (tm : Client.timing)
  (sched : list (list (result bytes))) (rm : nat)
  (last : option (Z * bytes)) :
  Client.mytimer tm = Client.timeout_value tm ->
  (forall d, same_message last seq d = false) ->
  (forall s, same_message last s done_text = false) ->
  match Client.send_messages make extract nums seq tm sched with
  | (_, seq', tm', _, tr) =>
      match policy_run (Client.timeout_value tm, rm, last) tr with
      | (st', out) =>
          out = durations tr
          /\ Client.mytimer tm' = Client.timeout_value tm'
          /\ exists rm' last',
               st' = (Client.timeout_value tm', rm', last')
               /\ forall s, same_message last' s done_text = false
      end
  end.
Proof.
  revert seq tm sched rm last; induction nums as [|message_num rest IH];
    intros seq tm sched rm last Htm Hfresh Hdone;
    cbn [Client.send_messages].
  - cbn [policy_run]; split; [reflexivity|split; [exact Htm|]].
    exists rm, last; split; [reflexivity|exact Hdone].
  - rewrite prepare_message.
    set (text := message_text message_num seq).
    set (pkt := make seq (Reference.digest text) text).
    pose proof (send_with_retries_policy Client.max_retries 0 seq text pkt tm
                  sched (Client.timeout_value tm) rm last
                  (message_text_not_done message_num seq) Htm
                  (or_introl (conj eq_refl (conj (Hfresh text) eq_refl))))
      as Hs.
    destruct (Client.send_with_retries extract Client.max_retries 0 seq text
                pkt tm sched) as [[[ack tm1] sched1] tr1].
    destruct (policy_run (Client.timeout_value tm, rm, last) tr1)
      as [st1 out1] eqn:Hrun1.
    destruct Hs as (Hout1 & Htm1 & Tp' & rm' & -> & Htv1).
    assert (Hnd : forall s, same_message (Some (seq, text)) s done_text
                            = false).
    { intros s; cbn [same_message].
      apply andb_false_iff; right.
      apply bytes_eqb_neq, message_text_not_done. }
    destruct ack.
    + assert (Hnext : forall d,
                 same_message (Some (seq, text)) ((seq + 1) mod 256) d
                 = false).
      { intros d; cbn [same_message].
        replace (seq =? (seq + 1) mod 256) with false; [reflexivity|].
        symmetry; apply Z.eqb_neq; intros E.
        apply (succ_mod_256_neq seq); symmetry; exact E. }
      specialize (IH ((seq + 1) mod 256) tm1 sched1 rm'
                    (Some (seq, text)) Htm1 Hnext Hnd).
      destruct (Client.send_messages make extract rest ((seq + 1) mod 256)
                  tm1 sched1) as [[[[e seq'] tm'] sched'] tr'].
      rewrite policy_run_app, Hrun1, <- Htv1.
      destruct (policy_run (Client.timeout_value tm1, rm', Some (seq, text))
                  tr') as [st' out'].
      destruct IH as (Hout' & Htm' & Hex).
      rewrite durations_app, Hout1, Hout'.
      split; [reflexivity|split; [exact Htm'|exact Hex]].
    + rewrite policy_run_app, Hrun1.
      cbn [policy_run policy_step]; rewrite <- Htv1.
      rewrite durations_app, Hout1; cbn [durations flat_map].
      split; [reflexivity|split; [exact Htm1|]].
      exists rm', (Some (seq, text)); split; [reflexivity|exact Hnd].
Qed.

Lemma main_policy (sched : list (list (result bytes))) :
  durations (Client.trace (Client.main make extract sched))
  = policy_durations (Client.trace (Client.main make extract sched)).
Proof.
  unfold Client.main, policy_durations.
  pose proof (send_messages_policy (Client.range 20) 0
                {| Client.timeout_value := 1.0; Client.mytimer := 1.0 |} sched
                O None eq_refl (fun _ => eq_refl) (fun _ => eq_refl)) as Hm.
  destruct (Client.send_messages make extract (Client.range 20) 0 _ sched)
    as [[[[e seq] tm] sched'] tr].
  cbn [Client.timeout_value] in Hm.
  destruct (policy_run (1.0%float, O, None) tr) as [st1 out1] eqn:Hrun1.
  destruct Hm as (Hout1 & Htm & rm' & last' & -> & Hdone).
  unfold Client.finally; rewrite prepare_done.
  pose proof (send_done_with_retries_policy Client.max_retries 0 seq
                (make seq (Reference.digest done_text) done_text) tm sched'
                rm' last' (or_introl (Hdone seq))) as Hd.
  destruct (Client.send_done_with_retries extract Client.max_retries 0 seq
              done_text _ tm sched') as [done_received tr'].
  cbn [Client.trace snd] in *.
  rewrite policy_run_app, Hrun1, <- Htm.
  destruct (policy_run (Client.mytimer tm, rm', last') tr') as [st' out'].
  cbn [snd] in *.
  rewrite durations_app, Hout1, Hd; reflexivity.
Qed.

(** C3, as the code has it.
    - Within one message that starts with the value [T], the timer
      started after [j] timeouts lasts [timeout_after T j] - [T] for the
      first transmission and the first retry, then [min(T * 1.5, 5.0)]
      applied once more at each further retry - and the message leaves
      [timeout_value] at the last of these values.
    - In a whole run the first timer lasts the base 1.0, and each timer
      started lasts as long as the one before it or its [backoff] and
      never less.
    - The timers of a whole run are exactly those of the policy read
      off the trace ([policy_durations]): the first transmission of
      each message, and of the termination message, uses the value in
      force when the message before it ended - it is not reset to the
      base; a retransmission of a message grows the value from the
      second retry on; the timeout before an abort grows it as well;
      and the loop of the termination message leaves it as it is. *)
Theorem timeout_policy :
  (forall seq texttosend pkt T sched,
      match Client.send_with_retries extract Client.max_retries 0 seq
              texttosend pkt
              {| Client.timeout_value := T; Client.mytimer := T |} sched with
      | (ack_received, tm', _, tr) =>
          exists k,
            durations tr = map (timeout_after T) (List.seq 0 k)
            /\ (1 <= k <= Client.max_retries)%nat
            /\ Client.timeout_value tm'
               = timeout_after T (if ack_received then k - 1 else k)
            /\ Client.mytimer tm' = Client.timeout_value tm'
      end)
  /\ (forall sched,
         let ds := durations (Client.trace (Client.main make extract sched)) in
         hd_error ds = Some 1.0%float
         /\ forall i,
              match nth_error ds i, nth_error ds (S i) with
              | Some a, Some d =>
                  (d = a \/ d = backoff a) /\ PrimFloat.leb a d = true
              | _, _ => True
              end)
  /\ forall sched,
       durations (Client.trace (Client.main make extract sched))
       = policy_durations (Client.trace (Client.main make extract sched)).
Proof.
  split; [|split].
  - intros seq texttosend pkt T sched.
    pose proof (send_with_retries_durations Client.max_retries 0 seq
                  texttosend pkt T
                  {| Client.timeout_value := T; Client.mytimer := T |} sched
                  eq_refl eq_refl) as H.
    destruct (Client.send_with_retries extract Client.max_retries 0 seq
                texttosend pkt _ sched) as [[[ack tm'] sched'] tr].
    destruct H as (k & Hk & Hle & Hpos & _ & Htv & Htm).
    exists k; unfold Client.max_retries in *.
    repeat split; try assumption; lia.
  - intros sched ds; split; [apply main_first_timer|].
    intros i; apply (steps_pairs 1.0%float).
    + left; reflexivity.
    + apply starts_at_steps, main_durations.
  - exact main_policy.
Qed.

(** ** The sender: replies it accepts and replies it drops *)

(** In the loop of the termination message a reply with a valid
    checksum and the outstanding sequence number ends the wait,
    whatever its payload. *)
Lemma on_done_reply_valid (seq : Z) (rcvpkt ack_checksum dataRcvd : bytes) :
  rcvpkt <> [] ->
  extract rcvpkt = Ok (seq, ack_checksum, dataRcvd) ->
  Client.verify_checksum seq ack_checksum (PyBytes dataRcvd) = Ok true ->
  on_done_reply seq (Ok rcvpkt) = Ok true.
Proof.
  intros Hne Hx Hv; unfold on_done_reply, Client.on_done_reply.
  destruct rcvpkt as [|x r]; [contradiction|].
  cbn [bind]; rewrite Hx; cbn [bind]; rewrite Hv; cbn [bind andb].
  rewrite Z.eqb_refl; reflexivity.
Qed.

(** In the main loop the payload must also be well-formed UTF-8: it is
    decoded for the message of line 84 before the sequence numbers are
    compared. *)
Lemma on_reply_valid (seq : Z) (rcvpkt ack_checksum dataRcvd : bytes)
  (text : pystr) :
  rcvpkt <> [] ->
  extract rcvpkt = Ok (seq, ack_checksum, dataRcvd) ->
  Client.verify_checksum seq ack_checksum (PyBytes dataRcvd) = Ok true ->
  decode_utf8 dataRcvd = Ok text ->
  on_reply seq (Ok rcvpkt) = Ok true.
Proof.
  intros Hne Hx Hv Hd; unfold on_reply, Client.on_reply.
  destruct rcvpkt as [|x r]; [contradiction|].
  cbn [bind]; rewrite Hx; cbn [bind]; rewrite Hv; cbn [bind].
  rewrite Hd; cbn [bind]; rewrite Z.eqb_refl; reflexivity.
Qed.

Lemma on_reply_undecodable_payload (seq : Z)
  (rcvpkt ack_checksum dataRcvd : bytes) (e : exn) :
  rcvpkt <> [] ->
  extract rcvpkt = Ok (seq, ack_checksum, dataRcvd) ->
  Client.verify_checksum seq ack_checksum (PyBytes dataRcvd) = Ok true ->
  decode_utf8 dataRcvd = Raise e ->
  on_reply seq (Ok rcvpkt) = Raise e.
Proof.
  intros Hne Hx Hv Hd; unfold on_reply, Client.on_reply.
  destruct rcvpkt as [|x r]; [contradiction|].
  cbn [bind]; rewrite Hx; cbn [bind]; rewrite Hv; cbn [bind].
  rewrite Hd; reflexivity.
Qed.

(** A poll that does not end the wait leaves it to the later polls. *)
Lemma poll_until_dropped (body : result bytes -> result bool)
  (received : result bytes) (later : list (result bytes)) :
  body received <> Ok true ->
  Client.poll_until body (received :: later)
  = (fst (Client.poll_until body later),
     match received with
     | Ok rcvpkt => [Client.Received rcvpkt]
     | Raise _ => []
     end ++ snd (Client.poll_until body later)).
Proof.
  intros Hb; cbn [Client.poll_until].
  destruct (body received) as [[|]|e]; [contradiction| |];
    destruct (Client.poll_until body later); reflexivity.
Qed.

Lemma main_never_raises (sched : list (list (result bytes))) :
  Client.raised (Client.main make extract sched) = None.
Proof.
  unfold Client.main.
  pose proof (send_messages_ending (Client.range 20) 0
                {| Client.timeout_value := 1.0; Client.mytimer := 1.0 |} sched)
    as Hm.
  destruct (Client.send_messages make extract (Client.range 20) 0 _ sched)
    as [[[[e seq] tm] sched'] tr].
  destruct Hm as [He _].
  unfold Client.finally; rewrite prepare_done.
  destruct (Client.send_done_with_retries extract Client.max_retries 0 seq
              done_text _ tm sched') as [done_received tr'].
  cbn [Client.raised]; destruct He as [-> | ->]; reflexivity.
Qed.

(** C4, as the code has it: a datagram that [packet.extract] cannot
    decode is dropped by both waiting loops of the sender, which go on
    polling as after a poll that found nothing, and no exception leaves
    the sender's [main]; in the receiver the exception is caught, but by
    the handler around [while True]: the receiver sends no
    acknowledgement, keeps [expected_seq], and stops serving. *)
Theorem undecodable_packet_handling (rcvpkt : bytes) (e : exn) :
  extract rcvpkt = Raise e ->
  (forall seq later,
      Client.wait_ack extract seq (Ok rcvpkt :: later)
      = (fst (Client.wait_ack extract seq later),
         Client.Received rcvpkt :: snd (Client.wait_ack extract seq later))
      /\ fst (Client.wait_ack extract seq (Ok rcvpkt :: later))
         = fst (Client.wait_ack extract seq (Raise BlockingIOError :: later)))
  /\ (forall seq later,
         Client.wait_done extract seq (Ok rcvpkt :: later)
         = (fst (Client.wait_done extract seq later),
            Client.Received rcvpkt :: snd (Client.wait_done extract seq later))
         /\ fst (Client.wait_done extract seq (Ok rcvpkt :: later))
            = fst (Client.wait_done extract seq
                     (Raise BlockingIOError :: later)))
  /\ (forall sched, Client.raised (Client.main make extract sched) = None)
  /\ forall (addr : Type) expected_seq (a : addr) later,
       Server.serve addr make extract expected_seq (Ok (rcvpkt, a) :: later)
       = {| Server.sent := []; Server.expected_seq := expected_seq;
            Server.exit := Server.Failed e |}.
Proof.
  intros Hx.
  assert (H1 : forall seq, Client.on_reply extract seq (Ok rcvpkt) <> Ok true).
  { intros seq; unfold Client.on_reply; cbn [bind].
    destruct rcvpkt; [discriminate|rewrite Hx; discriminate]. }
  assert (H2 : forall seq,
             Client.on_done_reply extract seq (Ok rcvpkt) <> Ok true).
  { intros seq; unfold Client.on_done_reply; cbn [bind].
    destruct rcvpkt; [discriminate|rewrite Hx; discriminate]. }
  split; [|split; [|split; [exact main_never_raises|]]].
  - intros seq later; unfold Client.wait_ack.
    rewrite !poll_until_dropped by (apply H1 || discriminate).
    split; reflexivity.
  - intros seq later; unfold Client.wait_done.
    rewrite !poll_until_dropped by (apply H2 || discriminate).
    split; reflexivity.
  - intros addr expected_seq a later.
    apply serve_undecodable, Hx.
Qed.

End ClientProperties.

(** ** The codec of [Packet] *)

Lemma byte_of_N_to_N (n : N) : (n < 256)%N -> Byte.to_N (byte_of_N n) = n.
Proof.
  intros Hn; unfold byte_of_N.
  destruct (Byte.of_N n) as [x|] eqn:E; [apply Byte.to_of_N, E|].
  apply Byte.of_N_None_iff in E; lia.
Qed.

Lemma packet_roundtrip (seq : Z) (checksum data : bytes) :
  0 <= seq < 256 -> length checksum = 8%nat ->
  Packet.extract (Packet.make seq checksum data) = Ok (seq, checksum, data).
Proof.
  intros Hs Hc; unfold Packet.extract, Packet.make.
  cbn [length]; rewrite length_app, Hc.
  replace (S (8 + length data) <? Packet.header_size)%nat with false
    by (symmetry; apply Nat.ltb_ge; unfold Packet.header_size; lia).
  unfold int_of_byte; rewrite byte_of_N_to_N, Z2N.id, Z.mod_small by
    (try apply Z.mod_pos_bound; try lia;
     pose proof (Z.mod_pos_bound seq 256 ltac:(lia)); lia).
  rewrite <- Hc, firstn_app, Nat.sub_diag, firstn_all, firstn_O, app_nil_r.
  rewrite skipn_app, Nat.sub_diag, skipn_all, skipn_O; reflexivity.
Qed.

(** The payloads the sender builds are ASCII text, so decoding them for
    the messages printed at lines 70 and 84 does not raise. *)
Lemma decode_utf8_ascii (s : pystr) :
  Forall is_ascii s -> decode_utf8 (Reference.encode s) = Ok s.
Proof.
  induction 1 as [|c r Hc _ IH]; [reflexivity|].
  unfold is_ascii in Hc.
  change (Reference.encode (c :: r)) with (byte_of_N c :: Reference.encode r).
  cbn [decode_utf8]; cbv zeta.
  rewrite byte_of_N_to_N by lia.
  replace (c <? 128)%N with true by (symmetry; apply N.ltb_lt, Hc).
  rewrite IH; reflexivity.
Qed.

Lemma message_text_decodes (message_num seq : Z) :
  decode_utf8 (message_text message_num seq)
  = Ok (lit "Message-" ++ str message_num ++ lit "-Seq-" ++ str seq).
Proof.
  apply decode_utf8_ascii, lit_ascii_app; [reflexivity|].
  apply Forall_app; split; [apply str_ascii|].
  apply lit_ascii_app; [reflexivity|apply str_ascii].
Qed.

Lemma ack_text_decodes (seq : Z) :
  decode_utf8 (Scenario.ack_text seq) = Ok (lit "ACK-" ++ str seq).
Proof.
  apply decode_utf8_ascii, lit_ascii_app; [reflexivity|apply str_ascii].
Qed.

(** ** Concrete runs *)

Example create_checksum_DONE :
  Client.create_checksum 0 (PyBytes (b"DONE")) = Ok (b"00000014").
Proof. reflexivity. Qed.

Example str_examples :
  str 0 = lit "0" /\ str 255 = lit "255" /\ str (-17) = lit "-17"
  /\ str 100000000 = lit "100000000" /\ zfill (lit "-17") 5 = lit "-0017".
Proof. repeat split; reflexivity. Qed.

Example utf8_examples :
  encode_utf8 [0xE9; 0x20AC; 0x1F600]%N
  = Ok [xc3; xa9; xe2; x82; xac; xf0; x9f; x98; x80]
  /\ decode_utf8 [xc3; xa9; xe2; x82; xac; xf0; x9f; x98; x80]
     = Ok [0xE9; 0x20AC; 0x1F600]%N
  /\ decode_utf8 [xff] = Raise UnicodeDecodeError
  /\ decode_utf8 [xc0; x80] = Raise UnicodeDecodeError
  /\ decode_utf8 [xed; xa0; x80] = Raise UnicodeDecodeError
  /\ encode_utf8 [0xD800%N] = Raise UnicodeEncodeError.
Proof. repeat split; reflexivity. Qed.

(** Three messages and the termination message: four acknowledgements,
    [expected_seq] advanced four times, and the receiver shuts down. *)
Example server_termination_scenario :
  Scenario.server
    [Ok (Scenario.message 0 0, 7%nat); Ok (Scenario.message 1 1, 7%nat);
     Ok (Scenario.message 2 2, 7%nat); Ok (Scenario.done 3, 7%nat);
     Ok (Scenario.message 4 4, 7%nat)]
  = {| Server.sent := [(Scenario.ack 0, 7%nat); (Scenario.ack 1, 7%nat);
                       (Scenario.ack 2, 7%nat); (Scenario.ack 3, 7%nat)];
       Server.expected_seq := 4;
       Server.exit := Server.Shutdown |}.
Proof. vm_compute; reflexivity. Qed.

(** A duplicate is acknowledged again and does not advance
    [expected_seq]. *)
Example server_duplicate_scenario :
  Scenario.server
    [Ok (Scenario.message 0 0, 7%nat); Ok (Scenario.message 0 0, 7%nat)]
  = {| Server.sent := [(Scenario.ack 0, 7%nat); (Scenario.ack 0, 7%nat)];
       Server.expected_seq := 1;
       Server.exit := Server.Waiting |}.
Proof. vm_compute; reflexivity. Qed.

(** Both ways in which the main loop of the sender ends are taken. *)
Example client_all_acknowledged :
  Client.transfer (Scenario.client Scenario.all_acknowledged)
  = Client.Exhausted
  /\ filter is_sent (Client.trace (Scenario.client Scenario.all_acknowledged))
     = map (fun n => Client.Sent n (message_text n n) (Scenario.message n n))
         (Client.range 20)
       ++ [Client.Sent 20 done_text (Scenario.done 20)].
Proof. split; vm_compute; reflexivity. Qed.

Example client_nothing_arrives :
  Client.transfer (Scenario.client []) = Client.GaveUp
  /\ filter is_sent (Client.trace (Scenario.client []))
     = repeat (Client.Sent 0 (message_text 0 0) (Scenario.message 0 0)) 10
       ++ repeat (Client.Sent 0 done_text (Scenario.done 0)) 10.
Proof. split; vm_compute; reflexivity. Qed.

(** The receiver on message 0, received from address 7 while
    [expected_seq] is 0. *)
Lemma server_acks_valid_packet_witness :
  Packet.extract (Scenario.message 0 0)
  = Ok (0, Reference.digest (message_text 0 0), message_text 0 0)
  /\ Server.verify_checksum 0 (Reference.digest (message_text 0 0))
       (PyBytes (message_text 0 0)) = Ok true
  /\ exists (ack_message ack_checksum : bytes) (expected_seq' : Z)
            (next : Server.control),
       encode_utf8 (lit "ACK-" ++ str 0) = Ok ack_message
       /\ Server.create_checksum 0 (PyBytes ack_message) = Ok ack_checksum
       /\ Server.loop_body nat Packet.make Packet.extract 0
            (Ok (Scenario.message 0 0, 7%nat))
          = Ok ([(Packet.make 0 ack_checksum ack_message, 7%nat)],
                expected_seq', next)
       /\ (expected_seq' = (0 + 1) mod 256 <-> 0 = 0)
       /\ (0 <> 0 -> expected_seq' = 0)
       /\ (next = Server.Break <-> message_text 0 0 = b"DONE").
Proof.
  split; [vm_compute; reflexivity|split; [vm_compute; reflexivity|]].
  apply (server_acks_valid_packet nat Packet.make Packet.extract 0
           (Scenario.message 0 0) 7%nat 0
           (Reference.digest (message_text 0 0)) (message_text 0 0));
    vm_compute; reflexivity.
Defined.

(** The receiver on message 0 with the checksum field zeroed. *)
Lemma server_drops_corrupted_packet_witness :
  Packet.extract (Packet.make 0 (b"00000000") (message_text 0 0))
  = Ok (0, b"00000000", message_text 0 0)
  /\ Server.verify_checksum 0 (b"00000000") (PyBytes (message_text 0 0))
     = Ok false
  /\ Server.loop_body nat Packet.make Packet.extract 0
       (Ok (Packet.make 0 (b"00000000") (message_text 0 0), 7%nat))
     = Ok ([], 0, Server.Continue)
  /\ forall later,
       Server.serve nat Packet.make Packet.extract 0
         (Ok (Packet.make 0 (b"00000000") (message_text 0 0), 7%nat) :: later)
       = Server.serve nat Packet.make Packet.extract 0 later.
Proof.
  split; [vm_compute; reflexivity|split; [vm_compute; reflexivity|]].
  apply (server_drops_corrupted_packet nat Packet.make Packet.extract 0
           (Packet.make 0 (b"00000000") (message_text 0 0)) 7%nat 0
           (b"00000000") (message_text 0 0));
    vm_compute; reflexivity.
Defined.

(** The sender when message 0 is acknowledged at once and nothing
    arrives afterwards: sequence 1 goes out after the reply for 0. *)
Lemma one_packet_in_flight_witness :
  let tr := Client.trace (Scenario.client [[Ok (Scenario.ack 0)]]) in
  tr = [] ++ Client.Sent 0 (message_text 0 0) (Scenario.message 0 0)
          :: [Client.Started 1.0; Client.Received (Scenario.ack 0)]
          ++ Client.Sent 1 (message_text 1 1) (Scenario.message 1 1)
          :: skipn 4 tr
  /\ 1 <> 0
  /\ exists rcvpkt ack_checksum dataRcvd,
       In (Client.Received rcvpkt)
         [Client.Started 1.0; Client.Received (Scenario.ack 0)]
       /\ Packet.extract rcvpkt = Ok (0, ack_checksum, dataRcvd)
       /\ Client.verify_checksum 0 ack_checksum (PyBytes dataRcvd) = Ok true.
Proof.
  split; [vm_compute; reflexivity|split; [discriminate|]].
  apply (one_packet_in_flight Packet.make Packet.extract
           [[Ok (Scenario.ack 0)]] 0 1
           (message_text 0 0) (Scenario.message 0 0)
           (message_text 1 1) (Scenario.message 1 1)
           [] [Client.Started 1.0; Client.Received (Scenario.ack 0)]
           (skipn 4 (Client.trace (Scenario.client [[Ok (Scenario.ack 0)]]))));
    [vm_compute; reflexivity|discriminate].
Defined.

(** A two-byte datagram, shorter than the header. *)
Lemma undecodable_packet_handling_witness :
  Packet.extract (b"xx") = Raise MalformedPacket
  /\ (forall seq later,
         fst (Client.wait_ack Packet.extract seq (Ok (b"xx") :: later))
         = fst (Client.wait_ack Packet.extract seq
                  (Raise BlockingIOError :: later)))
  /\ forall expected_seq (a : nat) later,
       Server.serve nat Packet.make Packet.extract expected_seq
         (Ok (b"xx", a) :: later)
       = {| Server.sent := []; Server.expected_seq := expected_seq;
            Server.exit := Server.Failed MalformedPacket |}.
Proof.
  pose proof (undecodable_packet_handling Packet.make Packet.extract (b"xx")
                MalformedPacket eq_refl) as (Hack & _ & _ & Hserve).
  split; [reflexivity|split].
  - intros seq later; apply Hack.
  - apply Hserve.
Defined.

(** C4, the claim as stated fails: after a datagram that cannot be
    decoded the receiver has left its loop; the valid packet that
    follows is not acknowledged, although it is when the undecodable
    datagram is lost instead. *)
Lemma server_stops_on_undecodable_packet :
  Packet.extract (b"xx") = Raise MalformedPacket
  /\ Scenario.server [Ok (b"xx", 1%nat); Ok (Scenario.message 0 0, 2%nat)]
     = {| Server.sent := []; Server.expected_seq := 0;
          Server.exit := Server.Failed MalformedPacket |}
  /\ Scenario.server [Ok (Scenario.message 0 0, 2%nat)]
     = {| Server.sent := [(Scenario.ack 0, 2%nat)]; Server.expected_seq := 1;
          Server.exit := Server.Waiting |}.
Proof. repeat split; vm_compute; reflexivity. Qed.

(** C3, the claim as stated fails: message 0 needs three transmissions,
    so [timeout_value] is 1.5 when it is acknowledged, and the timer of
    the first transmission of message 1 lasts 1.5, not the base 1.0. *)
Lemma timeout_not_reset_for_new_message :
  firstn 9 (Client.trace (Scenario.client Scenario.late_ack))
  = [Client.Sent 0 (message_text 0 0) (Scenario.message 0 0);
     Client.Started 1.0;
     Client.Sent 0 (message_text 0 0) (Scenario.message 0 0);
     Client.Started 1.0;
     Client.Sent 0 (message_text 0 0) (Scenario.message 0 0);
     Client.Started 1.5;
     Client.Received (Scenario.ack 0);
     Client.Sent 1 (message_text 1 1) (Scenario.message 1 1);
     Client.Started 1.5]
  /\ 1.5%float <> 1.0%float.
Proof.
  split; [vm_compute; reflexivity|].
  intros H; apply (f_equal (PrimFloat.eqb 1.0)) in H.
  vm_compute in H; discriminate.
Qed.

(** C10: a reply that decodes to the outstanding sequence number 0 and
    whose checksum verifies against its payload, the byte 0xff, does not
    end the wait of the main loop: decoding the payload for the message
    of line 84 raises, the handler of line 99 swallows the exception,
    and the sender retransmits after the timeout.  The loop of the
    termination message accepts the same reply. *)
Theorem client_drops_valid_ack_with_non_utf8_payload :
  Packet.extract Scenario.odd_reply = Ok (0, b"00000008", [xff])
  /\ Client.verify_checksum 0 (b"00000008") (PyBytes [xff]) = Ok true
  /\ Client.on_reply Packet.extract 0 (Ok Scenario.odd_reply)
     = Raise UnicodeDecodeError
  /\ Client.wait_ack Packet.extract 0 [Ok Scenario.odd_reply]
     = (false, [Client.Received Scenario.odd_reply])
  /\ Client.wait_done Packet.extract 0 [Ok Scenario.odd_reply]
     = (true, [Client.Received Scenario.odd_reply])
  /\ firstn 4 (Client.trace (Scenario.client [[Ok Scenario.odd_reply]]))
     = [Client.Sent 0 (message_text 0 0) (Scenario.message 0 0);
        Client.Started 1.0;
        Client.Received Scenario.odd_reply;
        Client.Sent 0 (message_text 0 0) (Scenario.message 0 0)].
Proof. repeat split; vm_compute; reflexivity. Qed.

(** * Further properties *)

(** ** The checksum functions, continued *)

Lemma int_of_byte_of_N (c : N) :
  (c < 256)%N -> int_of_byte (byte_of_N c) = Z.of_N c.
Proof. intros Hc; unfold int_of_byte; rewrite byte_of_N_to_N by exact Hc; reflexivity. Qed.

Lemma int_of_digits_app (l1 l2 : bytes) (a : Z) :
  fold_left (fun n x => 10 * n + (int_of_byte x - 48)) (l1 ++ l2) a
  = fold_left (fun n x => 10 * n + (int_of_byte x - 48)) l2
      (fold_left (fun n x => 10 * n + (int_of_byte x - 48)) l1 a).
Proof. apply fold_left_app. Qed.

(** Reading back the positional digits of [n] gives [n] modulo the
    power of ten of their number. *)
Lemma read_digits_of_width (w : nat) (n a : Z) :
  0 <= n ->
  fold_left (fun n x => 10 * n + (int_of_byte x - 48))
    (Reference.encode (Reference.digits_of_width w n)) a
  = a * 10 ^ Z.of_nat w + n mod 10 ^ Z.of_nat w.
Proof.
  revert n a; induction w as [|w IH]; intros n a Hn.
  - cbn [Reference.digits_of_width List.seq rev map Reference.encode fold_left].
    change (10 ^ Z.of_nat 0) with 1; rewrite Z.mod_1_r; lia.
  - rewrite digits_of_width_succ by exact Hn.
    unfold Reference.encode; rewrite map_app; fold Reference.encode.
    rewrite int_of_digits_app, IH by (apply Z.div_pos; lia).
    cbn [map fold_left].
    pose proof (Z.mod_pos_bound n 10 ltac:(lia)) as Hm.
    rewrite int_of_byte_of_N by (unfold ch_0; lia).
    rewrite N2Z.inj_add, Z2N.id by lia.
    rewrite Nat2Z.inj_succ, Z.pow_succ_r by lia.
    assert (Hp : 0 < 10 ^ Z.of_nat w) by (apply Z.pow_pos_nonneg; lia).
    rewrite (Z.rem_mul_r n 10 (10 ^ Z.of_nat w)) by lia.
    unfold ch_0; change (Z.of_N 48) with 48; lia.
Qed.

Lemma read_zeros (k : nat) :
  fold_left (fun n x => 10 * n + (int_of_byte x - 48))
    (Reference.encode (repeat ch_0 k)) 0 = 0.
Proof. induction k as [|k IH]; [reflexivity|exact IH]. Qed.

Lemma int_of_digits_digest (p : bytes) :
  int_of_digits (Reference.digest p) = Reference.bit_count p.
Proof.
  unfold int_of_digits, Reference.digest, Reference.pad, Reference.encode.
  rewrite map_app; fold Reference.encode.
  rewrite int_of_digits_app, read_zeros.
  pose proof (bit_count_bounds p) as Hb.
  unfold Reference.decimal; rewrite read_digits_of_width by lia.
  destruct (decimal_length_spec (Reference.bit_count p) ltac:(lia))
    as (_ & Hlt & _).
  rewrite Z.mod_small by lia; lia.
Qed.

Lemma digest_digit_bytes (p : bytes) :
  Forall is_digit_byte (Reference.digest p).
Proof.
  unfold Reference.digest, Reference.encode.
  apply Forall_map.
  pose proof (pad_digits 8 _ (decimal_digits (Reference.bit_count p))) as H.
  revert H; apply Forall_impl; intros c Hc.
  unfold is_digit in Hc; unfold is_digit_byte.
  rewrite int_of_byte_of_N by lia; lia.
Qed.

Lemma digest_eq_iff (p q : bytes) :
  Reference.digest p = Reference.digest q
  <-> Reference.bit_count p = Reference.bit_count q.
Proof.
  split; intros H.
  - rewrite <- (int_of_digits_digest p), <- (int_of_digits_digest q), H.
    reflexivity.
  - unfold Reference.digest; rewrite H; reflexivity.
Qed.

(** X1: [verify_checksum] never raises on a [bytes] payload, ignores
    its sequence argument, and returns [True] exactly for the digest
    that [create_checksum] returns for that payload. *)
Theorem verify_checksum_exact (s s' : Z) (c p : bytes) :
  (Client.verify_checksum s c (PyBytes p) = Ok true
   \/ Client.verify_checksum s c (PyBytes p) = Ok false)
  /\ (Client.verify_checksum s c (PyBytes p) = Ok true
      <-> Client.create_checksum s' (PyBytes p) = Ok c)
  /\ Client.verify_checksum s c (PyBytes p)
     = Client.verify_checksum s' c (PyBytes p)
  /\ Server.verify_checksum s c (PyBytes p)
     = Client.verify_checksum s c (PyBytes p).
Proof.
  rewrite ?server_verify_checksum_eq, ?client_verify_checksum_eq,
    client_create_checksum_eq; cbn [payload_bytes bind].
  split; [destruct (bytes_eqb c (Reference.digest p)); auto|].
  split; [|split; reflexivity].
  split.
  - intros [= H]; apply bytes_eqb_eq in H; subst c; reflexivity.
  - intros [= <-]; rewrite bytes_eqb_refl; reflexivity.
Qed.

(** X2: the digest is made of ASCII digits, at least 8 of them, and
    read back as a decimal number it is the number of set bits of the
    payload; so two payloads get the same digest exactly when they have
    the same number of set bits. *)
Theorem checksum_reads_back_bit_count (s : Z) (p : bytes) :
  exists c,
    Client.create_checksum s (PyBytes p) = Ok c
    /\ Forall is_digit_byte c
    /\ (8 <= length c)%nat
    /\ int_of_digits c
       = sum (map (fun byte => count (bin byte) ch_1) (ints p))
    /\ int_of_digits c = Reference.bit_count p
    /\ forall q,
         Client.create_checksum s (PyBytes q) = Ok c
         <-> Reference.bit_count q = Reference.bit_count p.
Proof.
  exists (Reference.digest p).
  split; [apply client_create_checksum_eq|].
  split; [apply digest_digit_bytes|].
  split; [rewrite digest_length; lia|].
  split; [rewrite bit_sum_reference; apply int_of_digits_digest|].
  split; [apply int_of_digits_digest|].
  intros q; rewrite client_create_checksum_eq; cbn [payload_bytes bind].
  rewrite <- digest_eq_iff; split; [intros [= H]; exact H|intros ->; reflexivity].
Qed.

(** Inverting one bit of a byte changes its number of set bits by one. *)
Lemma set_bits_flip_bit (x : byte) (k : nat) :
  (k < 8)%nat ->
  Reference.set_bits (flip_bit x k) = Reference.set_bits x + 1
  \/ Reference.set_bits (flip_bit x k) = Reference.set_bits x - 1.
Proof.
  intros Hk.
  do 8 (destruct k as [|k];
        [destruct x; vm_compute; (left; reflexivity) || (right; reflexivity)|]).
  lia.
Qed.

Lemma bit_count_flip_at (p : bytes) (i k : nat) :
  (i < length p)%nat -> (k < 8)%nat ->
  Reference.bit_count (flip_at p i k) <> Reference.bit_count p.
Proof.
  revert i; induction p as [|x r IH]; intros i Hi Hk; cbn [length] in Hi;
    [lia|].
  destruct i as [|j]; cbn [flip_at Reference.bit_count fold_right].
  - fold (Reference.bit_count r).
    destruct (set_bits_flip_bit x k Hk) as [E|E]; rewrite E; lia.
  - fold (Reference.bit_count r) (Reference.bit_count (flip_at r j k)).
    specialize (IH j ltac:(lia) Hk); lia.
Qed.

Lemma flip_at_length (p : bytes) (i k : nat) :
  length (flip_at p i k) = length p.
Proof.
  revert i; induction p as [|x r IH]; intros [|j]; cbn [flip_at length];
    try reflexivity.
  rewrite IH; reflexivity.
Qed.

(** X3: a payload in which any single bit has been inverted does not
    verify against the digest of the original payload. *)
Theorem single_bit_flip_is_detected (s : Z) (p : bytes) (i k : nat) :
  (i < length p)%nat -> (k < 8)%nat ->
  exists c,
    Client.create_checksum s (PyBytes p) = Ok c
    /\ length (flip_at p i k) = length p
    /\ Client.verify_checksum s c (PyBytes (flip_at p i k)) = Ok false
    /\ Server.verify_checksum s c (PyBytes (flip_at p i k)) = Ok false.
Proof.
  intros Hi Hk; exists (Reference.digest p).
  split; [apply client_create_checksum_eq|].
  split; [apply flip_at_length|].
  assert (H : bytes_eqb (Reference.digest p)
                (Reference.digest (flip_at p i k)) = false).
  { destruct (bytes_eqb _ _) eqn:E; [|reflexivity].
    apply bytes_eqb_eq, digest_eq_iff in E.
    exfalso; apply (bit_count_flip_at p i k Hi Hk); symmetry; exact E. }
  rewrite server_verify_checksum_eq, client_verify_checksum_eq.
  cbn [payload_bytes bind]; rewrite H; split; reflexivity.
Qed.

Lemma bit_count_permutation (p q : bytes) :
  Permutation p q -> Reference.bit_count p = Reference.bit_count q.
Proof.
  induction 1 as [|x l l' _ IH|x y l|l l' l'' _ IH1 _ IH2].
  - reflexivity.
  - change (Reference.set_bits x + Reference.bit_count l
            = Reference.set_bits x + Reference.bit_count l').
    rewrite IH; reflexivity.
  - change (Reference.set_bits y + (Reference.set_bits x + Reference.bit_count l)
            = Reference.set_bits x
              + (Reference.set_bits y + Reference.bit_count l)).
    lia.
  - rewrite IH1; exact IH2.
Qed.

(** X4: the digest does not see the order of the bytes: a payload and
    any rearrangement of its bytes get the same digest, so a rearranged
    payload passes [verify_checksum] with the digest of the
    original. *)
Theorem reordered_payload_passes_verification (s : Z) (p q : bytes) :
  Permutation p q ->
  Client.create_checksum s (PyBytes p) = Client.create_checksum s (PyBytes q)
  /\ exists c,
       Client.create_checksum s (PyBytes p) = Ok c
       /\ Client.verify_checksum s c (PyBytes q) = Ok true
       /\ Server.verify_checksum s c (PyBytes q) = Ok true.
Proof.
  intros Hperm.
  assert (E : Reference.digest p = Reference.digest q)
    by (apply digest_eq_iff, bit_count_permutation, Hperm).
  rewrite !client_create_checksum_eq; cbn [payload_bytes bind].
  split; [rewrite E; reflexivity|].
  exists (Reference.digest p); split; [reflexivity|].
  rewrite server_verify_checksum_eq, client_verify_checksum_eq.
  cbn [payload_bytes bind]; rewrite E, bytes_eqb_refl; split; reflexivity.
Qed.

(** X5: for a payload shorter than 12 500 000 bytes the digest is
    exactly 8 bytes long, in the client and in the server. *)
Theorem checksum_is_8_bytes_for_short_payloads (s : Z) (p : bytes) :
  Z.of_nat (length p) < 12500000 ->
  exists c,
    Client.create_checksum s (PyBytes p) = Ok c
    /\ Server.create_checksum s (PyBytes p) = Ok c
    /\ length c = 8%nat.
Proof.
  intros Hlen; exists (Reference.digest p).
  split; [apply client_create_checksum_eq|].
  split; [apply server_create_checksum_eq|].
  apply digest_length_8.
  pose proof (bit_count_bounds p) as Hb.
  change (10 ^ 8) with 100000000; lia.
Qed.

(** [str.encode('utf-8')] raises exactly on the strings that hold a
    code point it refuses, and then raises [UnicodeEncodeError]. *)
Lemma encode_codepoint_raises (c : codepoint) :
  (unencodable c -> encode_codepoint c = Raise UnicodeEncodeError)
  /\ (~ unencodable c -> exists bc, encode_codepoint c = Ok bc).
Proof.
  unfold unencodable, encode_codepoint.
  destruct (c <? 0x80)%N eqn:E1; [apply N.ltb_lt in E1|apply N.ltb_ge in E1].
  { split; [lia|eexists; reflexivity]. }
  destruct (c <? 0x800)%N eqn:E2; [apply N.ltb_lt in E2|apply N.ltb_ge in E2].
  { split; [lia|eexists; reflexivity]. }
  destruct ((0xD800 <=? c)%N && (c <=? 0xDFFF)%N) eqn:E3.
  { apply andb_true_iff in E3 as [Ha Hb].
    apply N.leb_le in Ha, Hb; split; [reflexivity|intros H; exfalso; apply H; lia]. }
  apply andb_false_iff in E3.
  assert (Hs : ~ (0xD800 <= c <= 0xDFFF)%N)
    by (destruct E3 as [E|E]; apply N.leb_gt in E; lia).
  destruct (c <? 0x10000)%N eqn:E4; [apply N.ltb_lt in E4|apply N.ltb_ge in E4].
  { split; [lia|eexists; reflexivity]. }
  destruct (c <? 0x110000)%N eqn:E5; [apply N.ltb_lt in E5|apply N.ltb_ge in E5].
  { split; [lia|eexists; reflexivity]. }
  split; [reflexivity|intros H; exfalso; apply H; lia].
Qed.

Lemma encode_utf8_raises (t : pystr) :
  (Exists unencodable t -> encode_utf8 t = Raise UnicodeEncodeError)
  /\ (~ Exists unencodable t -> exists p, encode_utf8 t = Ok p).
Proof.
  induction t as [|c r [IHr IHo]]; cbn [encode_utf8].
  - split; [intros H; inversion H|eexists; reflexivity].
  - destruct (encode_codepoint_raises c) as [Hr Ho]. split.
    + intros H. destruct (N.le_gt_cases 0xD800 c) as [Hge|Hlt].
      * destruct (N.le_gt_cases c 0xDFFF) as [Hle|Hgt].
        -- rewrite Hr by (left; lia); reflexivity.
        -- destruct (N.le_gt_cases 0x110000 c) as [Hbig|Hsmall].
           ++ rewrite Hr by (right; exact Hbig); reflexivity.
           ++ destruct Ho as [bc ->]; [unfold unencodable; lia|].
              cbn [bind]. inversion H as [? ? Hc|? ? Hex]; subst;
                [unfold unencodable in Hc; lia|].
              rewrite (IHr Hex); reflexivity.
      * destruct Ho as [bc ->]; [unfold unencodable; lia|].
        cbn [bind]. inversion H as [? ? Hc|? ? Hex]; subst;
          [unfold unencodable in Hc; lia|].
        rewrite (IHr Hex); reflexivity.
    + intros H.
      destruct Ho as [bc ->]; [intros Hc; apply H; left; exact Hc|].
      destruct IHo as [br ->]; [intros Hex; apply H; right; exact Hex|].
      eexists; reflexivity.
Qed.

(** X6: on a [bytes] payload [create_checksum] always returns; on a
    [str] payload it returns the digest of the UTF-8 encoding of the
    string, and it raises [UnicodeEncodeError], as [verify_checksum]
    does, exactly when the string holds a surrogate (or a code point
    beyond U+10FFFF). *)
Theorem create_checksum_on_str (s : Z) (t : pystr) :
  (Client.create_checksum s (PyStr t) = Raise UnicodeEncodeError
   <-> Exists unencodable t)
  /\ (forall c, Client.verify_checksum s c (PyStr t) = Raise UnicodeEncodeError
                <-> Exists unencodable t)
  /\ (forall p, encode_utf8 t = Ok p ->
                Client.create_checksum s (PyStr t)
                = Client.create_checksum s (PyBytes p))
  /\ forall p, exists c, Client.create_checksum s (PyBytes p) = Ok c.
Proof.
  destruct (encode_utf8_raises t) as [Hr Ho].
  assert (Hdec : Exists unencodable t \/ ~ Exists unencodable t).
  { destruct (Exists_dec unencodable t) as [H|H]; [|left; exact H|right; exact H].
    intros c; unfold unencodable.
    destruct (0xD800 <=? c)%N eqn:E1;
      [apply N.leb_le in E1|apply N.leb_gt in E1];
      (destruct (c <=? 0xDFFF)%N eqn:E2;
       [apply N.leb_le in E2|apply N.leb_gt in E2]);
      (destruct (0x110000 <=? c)%N eqn:E3;
       [apply N.leb_le in E3|apply N.leb_gt in E3]);
      (left; lia) || (right; lia). }
  split; [|split; [|split]].
  - rewrite client_create_checksum_eq; cbn [payload_bytes].
    split; [|intros H; rewrite (Hr H); reflexivity].
    destruct Hdec as [H|H]; [intros _; exact H|].
    destruct (Ho H) as [p ->]; discriminate.
  - intros c; rewrite client_verify_checksum_eq; cbn [payload_bytes].
    split; [|intros H; rewrite (Hr H); reflexivity].
    destruct Hdec as [H|H]; [intros _; exact H|].
    destruct (Ho H) as [p ->]; discriminate.
  - intros p Hp; rewrite !client_create_checksum_eq; cbn [payload_bytes].
    rewrite Hp; reflexivity.
  - intros p; exists (Reference.digest p); apply client_create_checksum_eq.
Qed.

(** ** The receiver, continued *)

Section ServerRuns.

Variable addr : Type.
Variable make : Z -> bytes -> bytes -> bytes.
Variable extract : bytes -> result (Z * bytes * bytes).

(** The acknowledgement the receiver builds for sequence [seq]. *)
Let ack (seq : Z) : bytes :=
  make seq (Reference.digest (Scenario.ack_text seq)) (Scenario.ack_text seq).

(** The two ways in which a pass through the loop ends normally. *)
Lemma loop_body_cases (expected_seq : Z) (received : result (bytes * addr))
  (out : list (bytes * addr)) (expected_seq' : Z) (next : Server.control) :
  Server.loop_body addr make extract expected_seq received
  = Ok (out, expected_seq', next) ->
  exists pkt a seq checksum dataRcvd,
    received = Ok (pkt, a)
    /\ extract pkt = Ok (seq, checksum, dataRcvd)
    /\ ((Server.verify_checksum seq checksum (PyBytes dataRcvd) = Ok true
         /\ out = [(ack seq, a)]
         /\ expected_seq' = (if seq =? expected_seq
                             then (expected_seq + 1) mod 256
                             else expected_seq)
         /\ next = (if bytes_eqb dataRcvd (b"DONE") then Server.Break
                    else Server.Continue))
        \/ (Server.verify_checksum seq checksum (PyBytes dataRcvd) = Ok false
            /\ out = [] /\ expected_seq' = expected_seq
            /\ next = Server.Continue)).
Proof.
  unfold Server.loop_body.
  destruct received as [[pkt a]|e]; cbn [bind]; [|discriminate].
  destruct (extract pkt) as [[[seq checksum] dataRcvd]|e] eqn:Hx;
    cbn [bind]; [|discriminate].
  rewrite server_verify_checksum_eq; cbn [payload_bytes bind].
  destruct (bytes_eqb checksum (Reference.digest dataRcvd)) eqn:Hv.
  - rewrite ack_message_ok; cbn [bind].
    rewrite server_create_checksum_eq; cbn [payload_bytes bind].
    intros [= <- <- <-].
    exists pkt, a, seq, checksum, dataRcvd.
    split; [reflexivity|split; [exact Hx|left; split; [|repeat split]]].
    rewrite server_verify_checksum_eq; cbn [payload_bytes bind].
    rewrite Hv; reflexivity.
  - intros [= <- <- <-].
    exists pkt, a, seq, checksum, dataRcvd.
    split; [reflexivity|split; [exact Hx|right; split; [|repeat split]]].
    rewrite server_verify_checksum_eq; cbn [payload_bytes bind].
    rewrite Hv; reflexivity.
Qed.

(** An exception leaves the loop body only from [udt.recv] or from
    [packet.extract]. *)
Lemma loop_body_raises (expected_seq : Z) (received : result (bytes * addr))
  (e : exn) :
  Server.loop_body addr make extract expected_seq received = Raise e ->
  received = Raise e
  \/ exists pkt a, received = Ok (pkt, a) /\ extract pkt = Raise e.
Proof.
  unfold Server.loop_body.
  destruct received as [[pkt a]|e']; cbn [bind];
    [|intros [= ->]; left; reflexivity].
  destruct (extract pkt) as [[[seq checksum] dataRcvd]|e'] eqn:Hx;
    cbn [bind]; [|intros [= ->]; right; exists pkt, a; split; [reflexivity|exact Hx]].
  rewrite server_verify_checksum_eq; cbn [payload_bytes bind].
  destruct (bytes_eqb checksum (Reference.digest dataRcvd)); [|discriminate].
  rewrite ack_message_ok; cbn [bind].
  rewrite server_create_checksum_eq; discriminate.
Qed.

Lemma serve_range (expected_seq : Z) (inputs : list (result (bytes * addr))) :
  0 <= expected_seq < 256 ->
  0 <= Server.expected_seq (Server.serve addr make extract expected_seq inputs)
    < 256
  /\ (length (Server.sent (Server.serve addr make extract expected_seq inputs))
      <= length inputs)%nat.
Proof.
  revert expected_seq; induction inputs as [|received later IH];
    intros expected_seq Hr; cbn [Server.serve].
  - cbn; lia.
  - destruct (Server.loop_body addr make extract expected_seq received)
      as [[[out e'] next]|e] eqn:Hb; [|cbn; lia].
    destruct (loop_body_cases _ _ _ _ _ Hb)
      as (pkt & a & seq & ck & d & _ & _ & [(_ & -> & -> & _)|(_ & -> & -> & _)]).
    + assert (Hr' : 0 <= (if seq =? expected_seq
                          then (expected_seq + 1) mod 256 else expected_seq)
                    < 256).
      { destruct (seq =? expected_seq); [apply Z.mod_pos_bound; lia|exact Hr]. }
      destruct next; [|cbn [Server.expected_seq Server.sent length]; lia].
      specialize (IH _ Hr'); cbn [Server.expected_seq Server.sent length app].
      lia.
    + destruct next; [|cbn [Server.expected_seq Server.sent length]; lia].
      specialize (IH _ Hr); cbn [Server.expected_seq Server.sent length app].
      lia.
Qed.

(** X7: in every run of the receiver [expected_seq] stays in
    [0, 255], and the receiver never sends more packets than it has
    received. *)
Theorem server_expected_seq_in_range (inputs : list (result (bytes * addr))) :
  0 <= Server.expected_seq (Server.main addr make extract inputs) < 256
  /\ (length (Server.sent (Server.main addr make extract inputs))
      <= length inputs)%nat.
Proof. apply serve_range; lia. Qed.

Lemma serve_sent (expected_seq : Z) (inputs : list (result (bytes * addr)))
  (pkt' : bytes) (a : addr) :
  In (pkt', a)
    (Server.sent (Server.serve addr make extract expected_seq inputs)) ->
  exists pkt seq checksum dataRcvd,
    In (Ok (pkt, a)) inputs
    /\ extract pkt = Ok (seq, checksum, dataRcvd)
    /\ Server.verify_checksum seq checksum (PyBytes dataRcvd) = Ok true
    /\ pkt' = ack seq.
Proof.
  revert expected_seq; induction inputs as [|received later IH];
    intros expected_seq; cbn [Server.serve]; [intros []|].
  destruct (Server.loop_body addr make extract expected_seq received)
    as [[[out e'] next]|e] eqn:Hb; [|intros []].
  destruct (loop_body_cases _ _ _ _ _ Hb)
    as (pkt & a0 & seq & ck & d & -> & Hx
        & [(Hv & -> & _ & _)|(_ & -> & -> & _)]).
  - assert (Hhere : In (pkt', a) [(ack seq, a0)] ->
                    exists pkt1 seq1 ck1 d1,
                      In (Ok (pkt1, a)) (Ok (pkt, a0) :: later)
                      /\ extract pkt1 = Ok (seq1, ck1, d1)
                      /\ Server.verify_checksum seq1 ck1 (PyBytes d1) = Ok true
                      /\ pkt' = ack seq1).
    { intros [[= <- <-]|[]]; exists pkt, seq, ck, d.
      repeat split; try assumption; left; reflexivity. }
    destruct next; cbn [Server.sent]; [|exact Hhere].
    intros Hin; apply in_app_or in Hin as [Hin|Hin]; [exact (Hhere Hin)|].
    destruct (IH _ Hin) as (p1 & s1 & c1 & d1 & H1 & H2 & H3 & H4).
    exists p1, s1, c1, d1; repeat split; try assumption; right; exact H1.
  - destruct next; cbn [Server.sent app]; [|intros []].
    intros Hin; destruct (IH _ Hin) as (p1 & s1 & c1 & d1 & H1 & H2 & H3 & H4).
    exists p1, s1, c1, d1; repeat split; try assumption; right; exact H1.
Qed.

(** X8: the receiver sends nothing but acknowledgements of packets it
    has received and verified: every packet it sends is the
    acknowledgement of the sequence number of a received packet whose
    checksum verifies, and it is sent to the address that packet came
    from. *)
Theorem server_acks_only_verified_packets
  (inputs : list (result (bytes * addr))) (pkt' : bytes) (a : addr) :
  In (pkt', a) (Server.sent (Server.main addr make extract inputs)) ->
  exists pkt seq checksum dataRcvd,
    In (Ok (pkt, a)) inputs
    /\ extract pkt = Ok (seq, checksum, dataRcvd)
    /\ Server.verify_checksum seq checksum (PyBytes dataRcvd) = Ok true
    /\ pkt' = make seq (Reference.digest (Scenario.ack_text seq))
                (Scenario.ack_text seq).
Proof. apply serve_sent. Qed.

Lemma serve_exit (expected_seq : Z) (inputs : list (result (bytes * addr))) :
  match Server.exit (Server.serve addr make extract expected_seq inputs) with
  | Server.Shutdown =>
      exists pkt a seq checksum,
        In (Ok (pkt, a)) inputs
        /\ extract pkt = Ok (seq, checksum, b"DONE")
        /\ Server.verify_checksum seq checksum (PyBytes (b"DONE")) = Ok true
  | Server.Failed e =>
      In (Raise e) inputs
      \/ exists pkt a, In (Ok (pkt, a)) inputs /\ extract pkt = Raise e
  | Server.Waiting =>
      Forall (fun received =>
                exists pkt a seq checksum dataRcvd,
                  received = Ok (pkt, a)
                  /\ extract pkt = Ok (seq, checksum, dataRcvd)
                  /\ ~ (dataRcvd = b"DONE"
                        /\ Server.verify_checksum seq checksum
                             (PyBytes dataRcvd) = Ok true)) inputs
  end.
Proof.
  revert expected_seq; induction inputs as [|received later IH];
    intros expected_seq; cbn [Server.serve]; [constructor|].
  destruct (Server.loop_body addr make extract expected_seq received)
    as [[[out e'] next]|e] eqn:Hb.
  - destruct (loop_body_cases _ _ _ _ _ Hb)
      as (pkt & a & seq & ck & d & -> & Hx & Hcase).
    assert (Hnext : next = Server.Break ->
                    d = b"DONE"
                    /\ Server.verify_checksum seq ck (PyBytes d) = Ok true).
    { destruct Hcase as [(Hv & _ & _ & ->)|(_ & _ & _ & ->)]; [|discriminate].
      destruct (bytes_eqb d (b"DONE")) eqn:E; [|discriminate].
      apply bytes_eqb_eq in E; intros _; split; assumption. }
    assert (Hcont : next = Server.Continue ->
                    ~ (d = b"DONE"
                       /\ Server.verify_checksum seq ck (PyBytes d) = Ok true)).
    { destruct Hcase as [(Hv & _ & _ & ->)|(Hv & _ & _ & _)].
      - destruct (bytes_eqb d (b"DONE")) eqn:E; [discriminate|].
        intros _ [-> _]; rewrite bytes_eqb_refl in E; discriminate.
      - intros _ [_ Hv']; rewrite Hv in Hv'; discriminate. }
    destruct next; cbn [Server.exit].
    + specialize (IH e').
      destruct (Server.exit (Server.serve addr make extract e' later)).
      * constructor; [|exact IH].
        exists pkt, a, seq, ck, d; repeat split; auto.
      * destruct IH as (p1 & a1 & s1 & c1 & H1 & H2 & H3).
        exists p1, a1, s1, c1; repeat split; try assumption; right; exact H1.
      * destruct IH as [H|(p1 & a1 & H1 & H2)]; [left; right; exact H|].
        right; exists p1, a1; split; [right; exact H1|exact H2].
    + destruct (Hnext eq_refl) as [-> Hv].
      exists pkt, a, seq, ck; repeat split; try assumption; left; reflexivity.
  - cbn [Server.exit].
    destruct (loop_body_raises _ _ _ Hb) as [->|(pkt & a & -> & Hx)];
      [left; left; reflexivity|].
    right; exists pkt, a; split; [left; reflexivity|exact Hx].
Qed.

(** X9: why the receiver stops serving by itself.  It shuts down only
    after a received packet with payload DONE whose checksum verifies;
    and as long as it is still waiting, every datagram so far was
    decoded and none of them was a verified DONE. *)
Theorem server_exit_reasons (inputs : list (result (bytes * addr))) :
  match Server.exit (Server.main addr make extract inputs) with
  | Server.Shutdown =>
      exists pkt a seq checksum,
        In (Ok (pkt, a)) inputs
        /\ extract pkt = Ok (seq, checksum, b"DONE")
        /\ Server.verify_checksum seq checksum (PyBytes (b"DONE")) = Ok true
  | Server.Waiting =>
      Forall (fun received =>
                exists pkt a seq checksum dataRcvd,
                  received = Ok (pkt, a)
                  /\ extract pkt = Ok (seq, checksum, dataRcvd)
                  /\ ~ (dataRcvd = b"DONE"
                        /\ Server.verify_checksum seq checksum
                             (PyBytes dataRcvd) = Ok true)) inputs
  | Server.Failed _ => True
  end.
Proof.
  pose proof (serve_exit 0 inputs) as H; unfold Server.main.
  destruct (Server.exit (Server.serve addr make extract 0 inputs));
    [exact H|exact H|exact I].
Qed.

(** A verified packet that is not DONE is acknowledged and the loop
    goes on with the rest of the input. *)
Lemma serve_valid (expected_seq : Z) (pkt : bytes) (a : addr) (seq : Z)
  (checksum dataRcvd : bytes) (later : list (result (bytes * addr))) :
  extract pkt = Ok (seq, checksum, dataRcvd) ->
  Server.verify_checksum seq checksum (PyBytes dataRcvd) = Ok true ->
  dataRcvd <> b"DONE" ->
  Server.serve addr make extract expected_seq (Ok (pkt, a) :: later)
  = let r := Server.serve addr make extract
               (if seq =? expected_seq then (expected_seq + 1) mod 256
                else expected_seq) later in
    {| Server.sent := (ack seq, a) :: Server.sent r;
       Server.expected_seq := Server.expected_seq r;
       Server.exit := Server.exit r |}.
Proof.
  intros Hx Hv Hd; cbn [Server.serve].
  rewrite (loop_body_valid addr make extract _ _ _ _ _ _ Hx Hv).
  destruct (bytes_eqb dataRcvd (b"DONE")) eqn:E;
    [apply bytes_eqb_eq in E; contradiction|reflexivity].
Qed.

(** X10: a packet with payload DONE whose checksum verifies shuts the
    receiver down whatever its sequence number, expected or not: it is
    acknowledged, [expected_seq] advances only if the number is the
    expected one, and nothing that arrives later is processed. *)
Theorem server_shuts_down_on_done (expected_seq : Z) (pkt : bytes) (a : addr)
  (seq : Z) (checksum : bytes) (later : list (result (bytes * addr))) :
  extract pkt = Ok (seq, checksum, b"DONE") ->
  Server.verify_checksum seq checksum (PyBytes (b"DONE")) = Ok true ->
  Server.serve addr make extract expected_seq (Ok (pkt, a) :: later)
  = {| Server.sent :=
         [(make seq (Reference.digest (Scenario.ack_text seq))
             (Scenario.ack_text seq), a)];
       Server.expected_seq :=
         (if seq =? expected_seq then (expected_seq + 1) mod 256
          else expected_seq);
       Server.exit := Server.Shutdown |}.
Proof.
  intros Hx Hv; cbn [Server.serve].
  rewrite (loop_body_valid addr make extract _ _ _ _ _ _ Hx Hv).
  rewrite bytes_eqb_refl; reflexivity.
Qed.

(** X11: a verified packet other than the termination message, with
    the expected sequence number, that arrives twice in a row is
    acknowledged twice, each time to the address it came from, and
    advances [expected_seq] once.  (A duplicate of DONE is never read:
    the first copy shuts the receiver down.) *)
Theorem server_reacks_duplicate (expected_seq : Z) (pkt : bytes) (a a' : addr)
  (checksum dataRcvd : bytes) (later : list (result (bytes * addr))) :
  extract pkt = Ok (expected_seq, checksum, dataRcvd) ->
  Server.verify_checksum expected_seq checksum (PyBytes dataRcvd) = Ok true ->
  dataRcvd <> b"DONE" ->
  Server.serve addr make extract expected_seq
    (Ok (pkt, a) :: Ok (pkt, a') :: later)
  = let r := Server.serve addr make extract ((expected_seq + 1) mod 256)
               later in
    {| Server.sent :=
         (make expected_seq
            (Reference.digest (Scenario.ack_text expected_seq))
            (Scenario.ack_text expected_seq), a)
         :: (make expected_seq
               (Reference.digest (Scenario.ack_text expected_seq))
               (Scenario.ack_text expected_seq), a')
         :: Server.sent r;
       Server.expected_seq := Server.expected_seq r;
       Server.exit := Server.exit r |}.
Proof.
  intros Hx Hv Hd.
  rewrite (serve_valid _ _ _ _ _ _ _ Hx Hv Hd), Z.eqb_refl.
  rewrite (serve_valid _ _ _ _ _ _ _ Hx Hv Hd).
  replace (expected_seq =? (expected_seq + 1) mod 256) with false
    by (symmetry; apply Z.eqb_neq; intros E;
        apply (succ_mod_256_neq expected_seq); symmetry; exact E).
  reflexivity.
Qed.

(** X12: runs of the receiver compose.  While the receiver is still
    waiting after [l1], its run on [l1 ++ l2] is its run on [l1]
    followed by its run on [l2] from the [expected_seq] reached; once it
    has shut down or failed on [l1], what arrives afterwards changes
    nothing. *)
Theorem server_runs_compose (expected_seq : Z)
  (l1 l2 : list (result (bytes * addr))) :
  Server.serve addr make extract expected_seq (l1 ++ l2)
  = let r1 := Server.serve addr make extract expected_seq l1 in
    match Server.exit r1 with
    | Server.Waiting =>
        let r2 := Server.serve addr make extract (Server.expected_seq r1) l2 in
        {| Server.sent := Server.sent r1 ++ Server.sent r2;
           Server.expected_seq := Server.expected_seq r2;
           Server.exit := Server.exit r2 |}
    | _ => r1
    end.
Proof.
  revert expected_seq; induction l1 as [|received l1 IH]; intros expected_seq;
    cbn [app Server.serve].
  - cbn [Server.exit Server.expected_seq Server.sent app].
    destruct (Server.serve addr make extract expected_seq l2); reflexivity.
  - destruct (Server.loop_body addr make extract expected_seq received)
      as [[[out e'] next]|e]; [|reflexivity].
    destruct next; [|reflexivity].
    rewrite IH.
    destruct (Server.serve addr make extract e' l1) as [s1 x1 [| |e1]];
      cbn [Server.exit Server.expected_seq Server.sent];
      rewrite ?app_assoc; reflexivity.
Qed.

End ServerRuns.

(** ** The sender, continued *)

Section ClientRuns.

Variable make : Z -> bytes -> bytes -> bytes.
Variable extract : bytes -> result (Z * bytes * bytes).

(** The timer is started once for each transmission. *)
Lemma send_with_retries_timers (budget retries : nat) (seq : Z)
  (texttosend pkt : bytes) (tm : Client.timing)
  (sched : list (list (result bytes))) :
  match Client.send_with_retries extract budget retries seq texttosend pkt
          tm sched with
  | (_, _, _, tr) => length (durations tr) = length (filter is_sent tr)
  end.
Proof.
  revert retries tm sched; induction budget as [|budget IH];
    intros retries tm sched; cbn [Client.send_with_retries]; [reflexivity|].
  pose proof (poll_until_log (Client.on_reply extract seq) (hd [] sched))
    as Hl.
  unfold Client.wait_ack.
  destruct (Client.poll_until (Client.on_reply extract seq) (hd [] sched))
    as [ack log]; cbn [snd] in Hl.
  pose proof (durations_received _ Hl) as Hd1.
  pose proof (filter_received _ Hl) as Hf1.
  destruct ack.
  - rewrite durations_attempt, Hd1; cbn [filter is_sent]; rewrite Hf1.
    reflexivity.
  - match goal with
    | |- context [Client.send_with_retries extract budget ?r seq _ _ ?t ?s] =>
        specialize (IH r t s);
        destruct (Client.send_with_retries extract budget r seq
                    texttosend pkt t s) as [[[ack' tm'] sched'] tr']
    end.
    rewrite durations_app, durations_attempt, Hd1.
    cbn [filter is_sent app length]; rewrite filter_app, Hf1.
    cbn [app length]; rewrite IH; reflexivity.
Qed.

(** X13: the transmissions of one message are byte-identical copies of
    one packet; there is at least one and there are at most
    [max_retries] of them, exactly [max_retries] when no reply is
    accepted; and the timer is started once for each of them. *)
Theorem retransmissions_identical_and_bounded (seq : Z)
  (texttosend pkt : bytes) (tm : Client.timing)
  (sched : list (list (result bytes))) :
  match Client.send_with_retries extract Client.max_retries 0 seq texttosend
          pkt tm sched with
  | (ack_received, _, _, tr) =>
      exists k,
        filter is_sent tr = repeat (Client.Sent seq texttosend pkt) k
        /\ length (durations tr) = k
        /\ (1 <= k <= Client.max_retries)%nat
        /\ (ack_received = false -> k = Client.max_retries)
  end.
Proof.
  pose proof (send_with_retries_sends extract Client.max_retries 0 seq
                texttosend pkt tm sched) as Hs.
  pose proof (send_with_retries_timers Client.max_retries 0 seq
                texttosend pkt tm sched) as Ht.
  destruct (Client.send_with_retries extract Client.max_retries 0 seq
              texttosend pkt tm sched) as [[[ack tm'] sched'] tr].
  destruct Hs as (k & Hk & Hle & Hpos & Hall).
  exists k; rewrite Ht, Hk, repeat_length.
  unfold Client.max_retries in *.
  repeat split; try assumption; lia.
Qed.

Lemma send_with_retries_no_abort (budget retries : nat) (seq : Z)
  (texttosend pkt : bytes) (tm : Client.timing)
  (sched : list (list (result bytes))) (s : Z) :
  match Client.send_with_retries extract budget retries seq texttosend pkt
          tm sched with
  | (_, _, _, tr) => ~ In (Client.Aborted s) tr
  end.
Proof.
  revert retries tm sched; induction budget as [|budget IH];
    intros retries tm sched; cbn [Client.send_with_retries]; [intros []|].
  pose proof (poll_until_log (Client.on_reply extract seq) (hd [] sched))
    as Hl.
  unfold Client.wait_ack.
  destruct (Client.poll_until (Client.on_reply extract seq) (hd [] sched))
    as [ack log]; cbn [snd] in Hl.
  assert (Hlog : ~ In (Client.Aborted s) log).
  { intros Hin; rewrite Forall_forall in Hl; exact (Hl _ Hin). }
  destruct ack.
  - intros [H|[H|H]]; [discriminate|discriminate|exact (Hlog H)].
  - match goal with
    | |- context [Client.send_with_retries extract budget ?r seq _ _ ?t ?s0] =>
        specialize (IH r t s0);
        destruct (Client.send_with_retries extract budget r seq
                    texttosend pkt t s0) as [[[ack' tm'] sched'] tr']
    end.
    intros [H|[H|H]]; [discriminate|discriminate|].
    apply in_app_or in H as [H|H]; [exact (Hlog H)|exact (IH H)].
Qed.

(** The main loop on the messages [k], [k + 1], ... sent with the same
    sequence numbers. *)
Lemma send_messages_consecutive (n k : nat) (tm : Client.timing)
  (sched : list (list (result bytes))) :
  (k + n < 256)%nat ->
  match Client.send_messages make extract (map Z.of_nat (List.seq k n))
          (Z.of_nat k) tm sched with
  | (e, seq', _, _, tr) =>
      Z.of_nat k <= seq' <= Z.of_nat (k + n)
      /\ (forall s d p,
             In (Client.Sent s d p) tr ->
             Z.of_nat k <= s <= seq' /\ s < Z.of_nat (k + n)
             /\ d = message_text s s /\ p = make s (Reference.digest d) d)
      /\ (length (filter is_sent tr) <= Client.max_retries * n)%nat
      /\ (0 < n -> 0 < length (filter is_sent tr))%nat
      /\ match e with
         | Client.Exhausted =>
             seq' = Z.of_nat (k + n) /\ forall s, ~ In (Client.Aborted s) tr
         | Client.GaveUp =>
             seq' < Z.of_nat (k + n)
             /\ exists pre tr1,
                  tr = pre ++ tr1 ++ [Client.Aborted seq']
                  /\ filter is_sent tr1
                     = repeat (Client.Sent seq' (message_text seq' seq')
                                 (make seq'
                                    (Reference.digest (message_text seq' seq'))
                                    (message_text seq' seq')))
                         Client.max_retries
                  /\ (forall s d p, In (Client.Sent s d p) pre -> s < seq')
                  /\ forall s, ~ In (Client.Aborted s) (pre ++ tr1)
         | Client.Escaped _ => False
         end
  end.
Proof.
  revert k tm sched; induction n as [|n IH]; intros k tm sched Hk.
  - cbn [List.seq map Client.send_messages filter length].
    rewrite Nat.add_0_r.
    split; [lia|split; [intros s d p []|split; [lia|split; [lia|]]]].
    split; [reflexivity|intros s []].
  - cbn [List.seq map Client.send_messages]; rewrite prepare_message.
    set (text := message_text (Z.of_nat k) (Z.of_nat k)).
    set (pkt := make (Z.of_nat k) (Reference.digest text) text).
    pose proof (send_with_retries_sends extract Client.max_retries 0
                  (Z.of_nat k) text pkt tm sched) as Hs.
    pose proof (fun s => send_with_retries_no_abort Client.max_retries 0
                  (Z.of_nat k) text pkt tm sched s) as Hna.
    destruct (Client.send_with_retries extract Client.max_retries 0
                (Z.of_nat k) text pkt tm sched) as [[[ack tm1] sched1] tr1].
    destruct Hs as (j & Hj & Hle & Hpos & Hall).
    assert (Hj1 : (0 < j)%nat) by (apply Hpos; unfold Client.max_retries; lia).
    assert (H1 : forall s d p, In (Client.Sent s d p) tr1 ->
                               s = Z.of_nat k /\ d = text /\ p = pkt).
    { intros s d p Hin.
      assert (Hf : In (Client.Sent s d p) (filter is_sent tr1))
        by (apply filter_In; split; [exact Hin|reflexivity]).
      rewrite Hj in Hf; apply repeat_spec in Hf.
      injection Hf as -> -> ->; repeat split. }
    destruct ack.
    + replace ((Z.of_nat k + 1) mod 256) with (Z.of_nat (S k))
        by (rewrite Z.mod_small; lia).
      specialize (IH (S k) tm1 sched1 ltac:(lia)).
      destruct (Client.send_messages make extract
                  (map Z.of_nat (List.seq (S k) n)) (Z.of_nat (S k)) tm1
                  sched1) as [[[[e seq'] tm'] sched'] tr'].
      destruct IH as (Hr & Hsent & Hlen & _ & He).
      replace (S k + n)%nat with (k + S n)%nat in * by lia.
      split; [lia|split; [|split; [|split]]].
      * intros s d p Hin; apply in_app_or in Hin as [Hin|Hin].
        -- destruct (H1 _ _ _ Hin) as (-> & -> & ->).
           repeat split; try lia; reflexivity.
        -- destruct (Hsent _ _ _ Hin) as (Ha & Hb & Hc & Hd).
           repeat split; try assumption; lia.
      * rewrite filter_app, length_app, Hj, repeat_length.
        unfold Client.max_retries in *; lia.
      * intros _; rewrite filter_app, length_app, Hj, repeat_length; lia.
      * destruct e as [| |x]; [| |exact He].
        -- destruct He as [-> Hno]; split; [reflexivity|].
           intros s Hin; apply in_app_or in Hin as [Hin|Hin];
             [exact (Hna s Hin)|exact (Hno s Hin)].
        -- destruct He as (Hlt & pre & t1 & -> & Hf & Hpre & Hno).
           split; [exact Hlt|].
           exists (tr1 ++ pre), t1.
           split; [rewrite <- app_assoc; reflexivity|].
           split; [exact Hf|split].
           ++ intros s d p Hin; apply in_app_or in Hin as [Hin|Hin].
              ** destruct (H1 _ _ _ Hin) as (-> & _ & _); lia.
              ** exact (Hpre _ _ _ Hin).
           ++ intros s Hin; rewrite <- app_assoc in Hin.
              apply in_app_or in Hin as [Hin|Hin];
                [exact (Hna s Hin)|exact (Hno s Hin)].
    + split; [lia|split; [|split; [|split]]].
      * intros s d p Hin; apply in_app_or in Hin as [Hin|[Hin|[]]];
          [|discriminate].
        destruct (H1 _ _ _ Hin) as (-> & -> & ->).
        repeat split; try lia; reflexivity.
      * rewrite filter_app, length_app, Hj, repeat_length.
        cbn [filter is_sent length]; unfold Client.max_retries in *; lia.
      * intros _; rewrite filter_app, length_app, Hj, repeat_length; lia.
      * split; [lia|].
        exists [], tr1; split; [reflexivity|].
        split; [rewrite Hj, (Hall eq_refl); reflexivity|].
        split; [intros s d p []|exact Hna].
Qed.

(** A run of [main]: the main loop on the messages 0 to 19, then the
    retry loop of the termination message with the sequence number the
    main loop ends with. *)
Lemma main_structure (sched : list (list (result bytes))) :
  exists e seq tm sched' loop_tr done_tr k,
    Client.send_messages make extract (map Z.of_nat (List.seq 0 20)) 0
      {| Client.timeout_value := 1.0; Client.mytimer := 1.0 |} sched
    = (e, seq, tm, sched', loop_tr)
    /\ Client.trace (Client.main make extract sched) = loop_tr ++ done_tr
    /\ Client.transfer (Client.main make extract sched) = e
    /\ filter is_sent done_tr
       = repeat (Client.Sent seq done_text
                   (make seq (Reference.digest done_text) done_text)) k
    /\ (1 <= k <= Client.max_retries)%nat.
Proof.
  unfold Client.main.
  change (Client.range 20) with (map Z.of_nat (List.seq 0 20)).
  destruct (Client.send_messages make extract (map Z.of_nat (List.seq 0 20))
              0 _ sched) as [[[[e seq] tm] sched'] loop_tr].
  unfold Client.finally; rewrite prepare_done.
  pose proof (send_done_with_retries_sends extract Client.max_retries 0 seq
                done_text (make seq (Reference.digest done_text) done_text)
                tm sched') as Hs.
  destruct (Client.send_done_with_retries extract Client.max_retries 0 seq
              done_text _ tm sched') as [done_received done_tr].
  destruct Hs as (k & Hk & Hle & Hpos & _).
  exists e, seq, tm, sched', loop_tr, done_tr, k.
  cbn [Client.trace Client.transfer].
  repeat split; try assumption.
  apply Hpos; unfold Client.max_retries; lia.
Qed.

(** X14: every packet the sender transmits is built by [packet.make]
    from a sequence number between 0 and 20, the digest of its payload
    and the payload, so its checksum verifies; the payload is the text
    of the message whose number is the sequence number, or DONE. *)
Theorem every_packet_sent_is_well_formed (sched : list (list (result bytes)))
  (s : Z) (d p : bytes) :
  In (Client.Sent s d p) (Client.trace (Client.main make extract sched)) ->
  0 <= s <= 20
  /\ (exists c, Client.create_checksum s (PyBytes d) = Ok c
                /\ p = make s c d
                /\ Server.verify_checksum s c (PyBytes d) = Ok true)
  /\ ((s < 20 /\ d = message_text s s) \/ d = done_text).
Proof.
  destruct (main_structure sched)
    as (e & seq & tm & sched' & loop_tr & done_tr & k
        & Hloop & -> & _ & Hdone & Hk).
  pose proof (send_messages_consecutive 20 0
                {| Client.timeout_value := 1.0; Client.mytimer := 1.0 |} sched
                ltac:(lia)) as Hc.
  change (Z.of_nat 0) with 0 in Hc; rewrite Hloop in Hc.
  destruct Hc as (Hr & Hsent & _).
  assert (Hwf : forall s0 d0,
             exists c, Client.create_checksum s0 (PyBytes d0) = Ok c
                       /\ make s0 (Reference.digest d0) d0 = make s0 c d0
                       /\ Server.verify_checksum s0 c (PyBytes d0) = Ok true).
  { intros s0 d0; exists (Reference.digest d0).
    split; [apply client_create_checksum_eq|split; [reflexivity|]].
    rewrite server_verify_checksum_eq; cbn [payload_bytes bind].
    rewrite bytes_eqb_refl; reflexivity. }
  intros Hin; apply in_app_or in Hin as [Hin|Hin].
  - destruct (Hsent _ _ _ Hin) as (Ha & Hb & Hd & Hp).
    change (Z.of_nat (0 + 20)) with 20 in *.
    split; [lia|split; [|left; split; [lia|exact Hd]]].
    rewrite Hp; apply Hwf.
  - assert (Hf : In (Client.Sent s d p) (filter is_sent done_tr))
      by (apply filter_In; split; [exact Hin|reflexivity]).
    rewrite Hdone in Hf; apply repeat_spec in Hf.
    injection Hf as -> -> ->.
    change (Z.of_nat (0 + 20)) with 20 in *.
    split; [lia|split; [apply Hwf|right; reflexivity]].
Qed.

(** X15: a run of the sender transmits at least 2 and at most 210
    packets: at most [max_retries] for each of the 20 messages and for
    the termination message. *)
Theorem sender_transmissions_bounded (sched : list (list (result bytes))) :
  (2 <= length (filter is_sent
                  (Client.trace (Client.main make extract sched)))
   <= 20 * Client.max_retries + Client.max_retries)%nat.
Proof.
  destruct (main_structure sched)
    as (e & seq & tm & sched' & loop_tr & done_tr & k
        & Hloop & -> & _ & Hdone & Hk).
  pose proof (send_messages_consecutive 20 0
                {| Client.timeout_value := 1.0; Client.mytimer := 1.0 |} sched
                ltac:(lia)) as Hc.
  change (Z.of_nat 0) with 0 in Hc; rewrite Hloop in Hc.
  destruct Hc as (_ & _ & Hlen & Hpos & _).
  rewrite filter_app, length_app, Hdone, repeat_length.
  specialize (Hpos ltac:(lia)); unfold Client.max_retries in *; lia.
Qed.

(** X16: how a run ends.  When the main loop is exhausted, no message
    was aborted and the termination message carries the sequence number
    20.  When it gives up, on some sequence number below 20, the packet
    of that message has been transmitted exactly [max_retries] times,
    every packet sent before carries a smaller sequence number, no
    further message is sent, and the termination message is sent with
    the sequence number of the aborted message. *)
Theorem transfer_outcome (sched : list (list (result bytes))) :
  exists seq loop_tr done_tr k,
    Client.trace (Client.main make extract sched) = loop_tr ++ done_tr
    /\ filter is_sent done_tr
       = repeat (Client.Sent seq done_text
                   (make seq (Reference.digest done_text) done_text)) k
    /\ (1 <= k <= Client.max_retries)%nat
    /\ match Client.transfer (Client.main make extract sched) with
       | Client.Exhausted =>
           seq = 20 /\ forall s, ~ In (Client.Aborted s) loop_tr
       | Client.GaveUp =>
           0 <= seq < 20
           /\ exists pre tr1,
                loop_tr = pre ++ tr1 ++ [Client.Aborted seq]
                /\ filter is_sent tr1
                   = repeat (Client.Sent seq (message_text seq seq)
                               (make seq
                                  (Reference.digest (message_text seq seq))
                                  (message_text seq seq)))
                       Client.max_retries
                /\ (forall s d p, In (Client.Sent s d p) pre -> s < seq)
                /\ forall s, ~ In (Client.Aborted s) (pre ++ tr1)
       | Client.Escaped _ => False
       end.
Proof.
  destruct (main_structure sched)
    as (e & seq & tm & sched' & loop_tr & done_tr & k
        & Hloop & Htr & -> & Hdone & Hk).
  pose proof (send_messages_consecutive 20 0
                {| Client.timeout_value := 1.0; Client.mytimer := 1.0 |} sched
                ltac:(lia)) as Hc.
  change (Z.of_nat 0) with 0 in Hc; rewrite Hloop in Hc.
  destruct Hc as (Hr & _ & _ & _ & He).
  change (Z.of_nat (0 + 20)) with 20 in *.
  exists seq, loop_tr, done_tr, k.
  split; [exact Htr|split; [exact Hdone|split; [exact Hk|]]].
  destruct e as [| |x]; [exact He| |exact He].
  destruct He as [Hlt Hex]; split; [lia|exact Hex].
Qed.

Lemma steps_on_ladder (a : float) (ds : list float) :
  on_ladder a -> steps a ds -> Forall on_ladder ds.
Proof.
  revert a; induction ds as [|d r IH]; intros a Ha Hs; [constructor|].
  destruct Hs as [Hd Hr].
  destruct (ladder_step a d Ha Hd) as [Hld _].
  constructor; [exact Hld|exact (IH d Hld Hr)].
Qed.

(** X17: every timer the sender starts lasts 1.0, 1.5, 2.25, 3.375 or
    5.0 seconds: the timeout never falls below the base 1.0 and never
    exceeds the cap 5.0. *)
Theorem timer_durations_on_ladder (sched : list (list (result bytes))) :
  Forall (fun d => on_ladder d
                   /\ PrimFloat.leb 1.0 d = true
                   /\ PrimFloat.leb d 5.0 = true)
    (durations (Client.trace (Client.main make extract sched))).
Proof.
  pose proof (steps_on_ladder 1.0%float _ (or_introl eq_refl)
                (starts_at_steps _ _ (main_durations make extract sched))) as H.
  revert H; apply Forall_impl; intros d Hd; split; [exact Hd|].
  unfold on_ladder in Hd; cbn [In] in Hd.
  destruct Hd as [<-|[<-|[<-|[<-|[<-|[]]]]]]; split; reflexivity.
Qed.

(** X18: both waiting loops drop an empty datagram, a reply whose
    checksum does not verify and a reply that carries another sequence
    number than the outstanding one, and they swallow every exception
    of [udt.recv]: the wait goes on with the later polls, the timer is
    not restarted. *)
Theorem mismatching_reply_is_dropped (seq : Z) (rcvpkt : bytes)
  (later : list (result bytes)) :
  rcvpkt = []
  \/ (exists s' ack_checksum dataRcvd,
         extract rcvpkt = Ok (s', ack_checksum, dataRcvd)
         /\ (Client.verify_checksum s' ack_checksum (PyBytes dataRcvd)
             = Ok false
             \/ s' <> seq)) ->
  Client.wait_ack extract seq (Ok rcvpkt :: later)
  = (fst (Client.wait_ack extract seq later),
     Client.Received rcvpkt :: snd (Client.wait_ack extract seq later))
  /\ Client.wait_done extract seq (Ok rcvpkt :: later)
     = (fst (Client.wait_done extract seq later),
        Client.Received rcvpkt :: snd (Client.wait_done extract seq later))
  /\ forall e,
       Client.wait_ack extract seq (Raise e :: later)
       = Client.wait_ack extract seq later
       /\ Client.wait_done extract seq (Raise e :: later)
          = Client.wait_done extract seq later.
Proof.
  intros H.
  assert (Hno : ~ valid_ack extract seq rcvpkt \/ rcvpkt = []).
  { destruct H as [->|(s' & ck & d & Hx & Hbad)]; [right; reflexivity|left].
    intros (ck' & d' & Hx' & Hv').
    rewrite Hx in Hx'; injection Hx' as -> -> ->.
    destruct Hbad as [Hv|Hs]; [rewrite Hv in Hv'; discriminate|contradiction]. }
  assert (H1 : Client.on_reply extract seq (Ok rcvpkt) <> Ok true).
  { destruct Hno as [Hno| ->]; [|discriminate].
    intros Ht; destruct (on_reply_true extract _ _ Ht) as (r & [= <-] & Hv).
    exact (Hno Hv). }
  assert (H2 : Client.on_done_reply extract seq (Ok rcvpkt) <> Ok true).
  { destruct Hno as [Hno| ->]; [|discriminate].
    intros Ht; destruct (on_done_reply_true extract _ _ Ht)
      as (r & [= <-] & Hv).
    exact (Hno Hv). }
  unfold Client.wait_ack, Client.wait_done.
  rewrite (poll_until_dropped _ _ _ H1), (poll_until_dropped _ _ _ H2).
  split; [reflexivity|split; [reflexivity|]].
  intros e; rewrite !poll_until_dropped by discriminate.
  split; apply surjective_pairing || (symmetry; apply surjective_pairing).
Qed.

(** X19: a reply that decodes to the outstanding sequence number and
    whose checksum verifies ends the wait at once, and the polls that
    would have followed are not made: always in the loop of the
    termination message, and in the main loop when its payload is
    well-formed UTF-8. *)
Theorem matching_reply_ends_wait (seq : Z)
  (rcvpkt ack_checksum dataRcvd : bytes) (later : list (result bytes)) :
  rcvpkt <> [] ->
  extract rcvpkt = Ok (seq, ack_checksum, dataRcvd) ->
  Client.verify_checksum seq ack_checksum (PyBytes dataRcvd) = Ok true ->
  Client.wait_done extract seq (Ok rcvpkt :: later)
  = (true, [Client.Received rcvpkt])
  /\ forall text,
       decode_utf8 dataRcvd = Ok text ->
       Client.wait_ack extract seq (Ok rcvpkt :: later)
       = (true, [Client.Received rcvpkt]).
Proof.
  intros Hne Hx Hv; unfold Client.wait_ack, Client.wait_done.
  cbn [Client.poll_until].
  rewrite (on_done_reply_valid extract _ _ _ _ Hne Hx Hv).
  split; [reflexivity|intros text Hd].
  rewrite (on_reply_valid extract _ _ _ _ _ Hne Hx Hv Hd); reflexivity.
Qed.

End ClientRuns.

(** ** Sender and receiver together *)

Lemma str_length_small (n : Z) : 0 <= n < 1000 -> (length (str n) <= 3)%nat.
Proof.
  intros Hn; rewrite str_decimal, decimal_length_eq by lia.
  apply decimal_length_small; [lia|].
  change (10 ^ Z.of_nat 3) with 1000; lia.
Qed.

Lemma digest_length_short (p : bytes) :
  Z.of_nat (length p) < 12500000 -> length (Reference.digest p) = 8%nat.
Proof.
  intros Hlen; apply digest_length_8.
  pose proof (bit_count_bounds p) as Hb.
  change (10 ^ 8) with 100000000; lia.
Qed.

Lemma message_digest_length (n : Z) :
  0 <= n < 256 -> length (Reference.digest (message_text n n)) = 8%nat.
Proof.
  intros Hn; apply digest_length_short.
  unfold message_text, Reference.encode.
  rewrite length_map, !length_app.
  pose proof (str_length_small n ltac:(lia)).
  change (length (lit "Message-")) with 8%nat.
  change (length (lit "-Seq-")) with 5%nat. lia.
Qed.

Lemma ack_digest_length (seq : Z) :
  0 <= seq < 256 ->
  length (Reference.digest (Scenario.ack_text seq)) = 8%nat.
Proof.
  intros Hn; apply digest_length_short.
  unfold Scenario.ack_text, Reference.encode.
  rewrite length_map, !length_app.
  pose proof (str_length_small seq ltac:(lia)).
  change (length (lit "ACK-")) with 4%nat. lia.
Qed.

Section LossFree.

Variable addr : Type.
Variable make : Z -> bytes -> bytes -> bytes.
Variable extract : bytes -> result (Z * bytes * bytes).

(** The codec round-trips, and no packet is the empty datagram. *)
Hypothesis make_nonempty : forall seq checksum data,
  make seq checksum data <> [].
Hypothesis extract_make : forall seq checksum data,
  0 <= seq < 256 -> length checksum = 8%nat ->
  extract (make seq checksum data) = Ok (seq, checksum, data).

Lemma verify_digest (seq : Z) (p : bytes) :
  Client.verify_checksum seq (Reference.digest p) (PyBytes p) = Ok true.
Proof.
  rewrite client_verify_checksum_eq; cbn [payload_bytes bind].
  rewrite bytes_eqb_refl; reflexivity.
Qed.

Lemma ack_accepted (seq : Z) :
  0 <= seq < 256 ->
  Client.on_reply extract seq (Ok (ack_packet make seq)) = Ok true
  /\ Client.on_done_reply extract seq (Ok (ack_packet make seq)) = Ok true.
Proof.
  intros Hs.
  pose proof (extract_make seq _ (Scenario.ack_text seq) Hs
                (ack_digest_length seq Hs)) as Hx.
  split.
  - eapply on_reply_valid;
      [apply make_nonempty|exact Hx|apply verify_digest|
       apply ack_text_decodes].
  - eapply on_done_reply_valid;
      [apply make_nonempty|exact Hx|apply verify_digest].
Qed.

(** X20: the two programs fit together: the acknowledgement the receiver
    sends for a verified packet with sequence number [seq] ends the wait
    of a sender whose outstanding sequence number is [seq], in the main
    loop and in the loop of the termination message. *)
Theorem server_ack_is_accepted_by_sender (expected_seq : Z) (pkt : bytes)
  (a : addr) (seq : Z) (checksum dataRcvd : bytes)
  (later : list (result bytes)) :
  0 <= seq < 256 ->
  extract pkt = Ok (seq, checksum, dataRcvd) ->
  Server.verify_checksum seq checksum (PyBytes dataRcvd) = Ok true ->
  exists ack_pkt expected_seq' next,
    Server.loop_body addr make extract expected_seq (Ok (pkt, a))
    = Ok ([(ack_pkt, a)], expected_seq', next)
    /\ Client.wait_ack extract seq (Ok ack_pkt :: later)
       = (true, [Client.Received ack_pkt])
    /\ Client.wait_done extract seq (Ok ack_pkt :: later)
       = (true, [Client.Received ack_pkt]).
Proof.
  intros Hs Hx Hv.
  exists (ack_packet make seq).
  eexists; eexists.
  split; [apply (loop_body_valid addr make extract _ _ _ _ _ _ Hx Hv)|].
  destruct (ack_accepted seq Hs) as [H1 H2].
  unfold Client.wait_ack, Client.wait_done; cbn [Client.poll_until].
  rewrite H1, H2; split; reflexivity.
Qed.

(** The main loop when every transmission is answered at once. *)
Lemma send_messages_answered (n k : nat) (tm : Client.timing)
  (rest : list (list (result bytes))) :
  (k + n < 256)%nat ->
  Client.send_messages make extract (map Z.of_nat (List.seq k n))
    (Z.of_nat k) tm
    (map (fun seq => [Ok (ack_packet make seq)])
       (map Z.of_nat (List.seq k n)) ++ rest)
  = (Client.Exhausted, Z.of_nat (k + n), tm, rest,
     flat_map (fun s => [Client.Sent s (message_text s s)
                           (message_packet make s);
                         Client.Started (Client.mytimer tm);
                         Client.Received (ack_packet make s)])
       (map Z.of_nat (List.seq k n))).
Proof.
  revert k; induction n as [|n IH]; intros k Hk.
  - cbn [List.seq map app flat_map Client.send_messages].
    rewrite Nat.add_0_r; reflexivity.
  - cbn [List.seq map app flat_map Client.send_messages].
    rewrite prepare_message.
    change Client.max_retries with (S 9).
    cbn [Client.send_with_retries hd tl].
    unfold Client.wait_ack; cbn [Client.poll_until].
    destruct (ack_accepted (Z.of_nat k) ltac:(lia)) as [-> _].
    replace ((Z.of_nat k + 1) mod 256) with (Z.of_nat (S k))
      by (rewrite Z.mod_small; lia).
    rewrite (IH (S k)) by lia.
    replace (S k + n)%nat with (k + S n)%nat by lia.
    reflexivity.
Qed.

(** The receiver when the messages arrive in order. *)
Lemma serve_messages (n k : nat) (a : addr)
  (later : list (result (bytes * addr))) :
  (k + n < 256)%nat ->
  Server.serve addr make extract (Z.of_nat k)
    (map (fun s => Ok (message_packet make s, a))
       (map Z.of_nat (List.seq k n)) ++ later)
  = let r := Server.serve addr make extract (Z.of_nat (k + n)) later in
    {| Server.sent :=
         map (fun s => (ack_packet make s, a)) (map Z.of_nat (List.seq k n))
         ++ Server.sent r;
       Server.expected_seq := Server.expected_seq r;
       Server.exit := Server.exit r |}.
Proof.
  revert k; induction n as [|n IH]; intros k Hk.
  - cbn [List.seq map app]; rewrite Nat.add_0_r.
    destruct (Server.serve addr make extract (Z.of_nat k) later); reflexivity.
  - cbn [List.seq map app].
    rewrite (serve_valid addr make extract (Z.of_nat k)
               (message_packet make (Z.of_nat k)) a (Z.of_nat k)
               (Reference.digest (message_text (Z.of_nat k) (Z.of_nat k)))
               (message_text (Z.of_nat k) (Z.of_nat k)));
      [|apply extract_make; [lia|apply message_digest_length; lia]
       |apply (verify_digest _ _)
       |apply message_text_not_done].
    rewrite Z.eqb_refl.
    replace ((Z.of_nat k + 1) mod 256) with (Z.of_nat (S k))
      by (rewrite Z.mod_small; lia).
    cbv zeta; rewrite (IH (S k)) by lia.
    replace (S k + n)%nat with (k + S n)%nat by lia.
    reflexivity.
Qed.

(** X21: over a channel that loses and corrupts nothing the transfer
    completes.  The sender, each of whose transmissions is answered at
    once by the receiver's acknowledgement, sends the 20 messages once
    each with the sequence numbers 0 to 19 and then the termination
    message with 20, with the base timeout throughout; the receiver, to
    which exactly these packets are delivered, answers with exactly
    these acknowledgements, ends with [expected_seq = 21] and shuts
    down. *)
Theorem loss_free_transfer_completes (a : addr) :
  Client.transfer (Client.main make extract (answered_at_once make 21))
  = Client.Exhausted
  /\ Client.trace (Client.main make extract (answered_at_once make 21))
     = flat_map (fun s => [Client.Sent s (message_text s s)
                             (message_packet make s);
                           Client.Started 1.0;
                           Client.Received (ack_packet make s)])
         (Client.range 20)
       ++ [Client.Sent 20 done_text (done_packet make 20);
           Client.Started 1.0;
           Client.Received (ack_packet make 20)]
  /\ Server.main addr make extract (delivered_in_order addr make a)
     = {| Server.sent :=
            map (fun s => (ack_packet make s, a)) (Client.range 21);
          Server.expected_seq := 21;
          Server.exit := Server.Shutdown |}.
Proof.
  assert (Hc : Client.main make extract (answered_at_once make 21)
               = {| Client.trace :=
                      flat_map (fun s => [Client.Sent s (message_text s s)
                                            (message_packet make s);
                                          Client.Started 1.0;
                                          Client.Received (ack_packet make s)])
                        (Client.range 20)
                      ++ [Client.Sent 20 done_text (done_packet make 20);
                          Client.Started 1.0;
                          Client.Received (ack_packet make 20)];
                    Client.transfer := Client.Exhausted;
                    Client.raised := None |}).
  { unfold Client.main, answered_at_once.
    change (Client.range 21)
      with (map Z.of_nat (List.seq 0 20) ++ [20]).
    change (Client.range 20) with (map Z.of_nat (List.seq 0 20)).
    rewrite map_app.
    rewrite (send_messages_answered 20 0) by lia.
    unfold Client.finally; rewrite prepare_done.
    change Client.max_retries with (S 9).
    cbn [Client.send_done_with_retries map hd tl].
    unfold Client.wait_done; cbn [Client.poll_until].
    destruct (ack_accepted 20 ltac:(lia)) as [_ H2].
    change (Z.of_nat (0 + 20)) with 20; rewrite H2.
    reflexivity. }
  rewrite Hc; split; [reflexivity|split; [reflexivity|]].
  unfold Server.main, delivered_in_order.
  change (Client.range 20) with (map Z.of_nat (List.seq 0 20)).
  rewrite (serve_messages 20 0) by lia.
  change (Z.of_nat (0 + 20)) with 20.
  cbn [Server.serve].
  rewrite (loop_body_valid addr make extract 20 (done_packet make 20) a 20
             (Reference.digest done_text) done_text);
    [|apply extract_make; [lia|reflexivity]|apply (verify_digest _ _)].
  reflexivity.
Qed.

End LossFree.

(** ** Concrete runs, continued *)

Lemma packet_make_nonempty (seq : Z) (checksum data : bytes) :
  Packet.make seq checksum data <> [].
Proof. discriminate. Qed.

(** The lowest bit of the second byte of DONE inverted: DNNE. *)
Lemma single_bit_flip_is_detected_witness :
  (1 < length (b"DONE"))%nat /\ (0 < 8)%nat
  /\ flip_at (b"DONE") 1 0 = b"DNNE"
  /\ exists c,
       Client.create_checksum 0 (PyBytes (b"DONE")) = Ok c
       /\ length (flip_at (b"DONE") 1 0) = length (b"DONE")
       /\ Client.verify_checksum 0 c (PyBytes (flip_at (b"DONE") 1 0))
          = Ok false
       /\ Server.verify_checksum 0 c (PyBytes (flip_at (b"DONE") 1 0))
          = Ok false.
Proof.
  split; [cbn; lia|split; [lia|split; [reflexivity|]]].
  apply (single_bit_flip_is_detected 0 (b"DONE") 1 0); [cbn; lia|lia].
Defined.

(** DONE and its rearrangement NODE. *)
Lemma reordered_payload_passes_verification_witness :
  Permutation (b"DONE") (b"NODE")
  /\ Client.create_checksum 0 (PyBytes (b"DONE"))
     = Client.create_checksum 0 (PyBytes (b"NODE"))
  /\ exists c,
       Client.create_checksum 0 (PyBytes (b"DONE")) = Ok c
       /\ Client.verify_checksum 0 c (PyBytes (b"NODE")) = Ok true
       /\ Server.verify_checksum 0 c (PyBytes (b"NODE")) = Ok true.
Proof.
  assert (H : Permutation (b"DONE") (b"NODE")).
  { change (Permutation [x44; x4f; x4e; x45] [x4e; x4f; x44; x45]).
    apply (perm_trans (l' := [x4f; x44; x4e; x45])); [apply perm_swap|].
    apply (perm_trans (l' := [x4f; x4e; x44; x45]));
      [apply perm_skip, perm_swap|apply perm_swap]. }
  split; [exact H|].
  apply (reordered_payload_passes_verification 0 (b"DONE") (b"NODE") H).
Defined.

Lemma checksum_is_8_bytes_for_short_payloads_witness :
  Z.of_nat (length (b"DONE")) < 12500000
  /\ exists c,
       Client.create_checksum 0 (PyBytes (b"DONE")) = Ok c
       /\ Server.create_checksum 0 (PyBytes (b"DONE")) = Ok c
       /\ length c = 8%nat.
Proof.
  split; [cbn; lia|].
  apply (checksum_is_8_bytes_for_short_payloads 0 (b"DONE")); cbn; lia.
Defined.

(** The acknowledgement sent after message 0 has arrived from
    address 7. *)
Lemma server_acks_only_verified_packets_witness :
  In (Scenario.ack 0, 7%nat)
    (Server.sent (Scenario.server [Ok (Scenario.message 0 0, 7%nat)]))
  /\ exists pkt seq checksum dataRcvd,
       In (Ok (pkt, 7%nat)) [Ok (Scenario.message 0 0, 7%nat)]
       /\ Packet.extract pkt = Ok (seq, checksum, dataRcvd)
       /\ Server.verify_checksum seq checksum (PyBytes dataRcvd) = Ok true
       /\ Scenario.ack 0
          = Packet.make seq (Reference.digest (Scenario.ack_text seq))
              (Scenario.ack_text seq).
Proof.
  assert (H : In (Scenario.ack 0, 7%nat)
                (Server.sent
                   (Scenario.server [Ok (Scenario.message 0 0, 7%nat)])))
    by (vm_compute; left; reflexivity).
  split; [exact H|].
  apply (server_acks_only_verified_packets nat Packet.make Packet.extract
           [Ok (Scenario.message 0 0, 7%nat)] (Scenario.ack 0) 7%nat H).
Defined.

(** The termination message with sequence number 5 while 0 is
    expected. *)
Lemma server_shuts_down_on_done_witness :
  Packet.extract (Scenario.done 5)
  = Ok (5, Reference.digest done_text, b"DONE")
  /\ Server.verify_checksum 5 (Reference.digest done_text) (PyBytes (b"DONE"))
     = Ok true
  /\ Server.serve nat Packet.make Packet.extract 0
       [Ok (Scenario.done 5, 7%nat); Ok (Scenario.message 0 0, 7%nat)]
     = {| Server.sent := [(Scenario.ack 5, 7%nat)];
          Server.expected_seq := 0;
          Server.exit := Server.Shutdown |}.
Proof.
  split; [vm_compute; reflexivity|split; [vm_compute; reflexivity|]].
  apply (server_shuts_down_on_done nat Packet.make Packet.extract 0
           (Scenario.done 5) 7%nat 5 (Reference.digest done_text)
           [Ok (Scenario.message 0 0, 7%nat)]);
    vm_compute; reflexivity.
Defined.

(** Message 0 arriving twice, from the addresses 7 and 8. *)
Lemma server_reacks_duplicate_witness :
  Packet.extract (Scenario.message 0 0)
  = Ok (0, Reference.digest (message_text 0 0), message_text 0 0)
  /\ Server.verify_checksum 0 (Reference.digest (message_text 0 0))
       (PyBytes (message_text 0 0)) = Ok true
  /\ message_text 0 0 <> b"DONE"
  /\ Server.serve nat Packet.make Packet.extract 0
       [Ok (Scenario.message 0 0, 7%nat); Ok (Scenario.message 0 0, 8%nat)]
     = {| Server.sent := [(Scenario.ack 0, 7%nat); (Scenario.ack 0, 8%nat)];
          Server.expected_seq := 1;
          Server.exit := Server.Waiting |}.
Proof.
  split; [vm_compute; reflexivity|split; [vm_compute; reflexivity|]].
  split; [apply message_text_not_done|].
  apply (server_reacks_duplicate nat Packet.make Packet.extract 0
           (Scenario.message 0 0) 7%nat 8%nat
           (Reference.digest (message_text 0 0)) (message_text 0 0) []);
    [vm_compute; reflexivity|vm_compute; reflexivity|
     apply message_text_not_done].
Defined.

(** The first packet of a run in which nothing arrives. *)
Lemma every_packet_sent_is_well_formed_witness :
  In (Client.Sent 0 (message_text 0 0) (Scenario.message 0 0))
    (Client.trace (Scenario.client []))
  /\ 0 <= 0 <= 20
  /\ (exists c,
         Client.create_checksum 0 (PyBytes (message_text 0 0)) = Ok c
         /\ Scenario.message 0 0 = Packet.make 0 c (message_text 0 0)
         /\ Server.verify_checksum 0 c (PyBytes (message_text 0 0)) = Ok true)
  /\ ((0 < 20 /\ message_text 0 0 = message_text 0 0)
      \/ message_text 0 0 = done_text).
Proof.
  assert (H : In (Client.Sent 0 (message_text 0 0) (Scenario.message 0 0))
                (Client.trace (Scenario.client [])))
    by (vm_compute; left; reflexivity).
  split; [exact H|].
  apply (every_packet_sent_is_well_formed Packet.make Packet.extract []
           0 (message_text 0 0) (Scenario.message 0 0) H).
Defined.

(** The acknowledgement of sequence 1 while 0 is outstanding. *)
Lemma mismatching_reply_is_dropped_witness :
  (Scenario.ack 1 = []
   \/ exists s' ack_checksum dataRcvd,
        Packet.extract (Scenario.ack 1) = Ok (s', ack_checksum, dataRcvd)
        /\ (Client.verify_checksum s' ack_checksum (PyBytes dataRcvd)
            = Ok false
            \/ s' <> 0))
  /\ Client.wait_ack Packet.extract 0 [Ok (Scenario.ack 1)]
     = (false, [Client.Received (Scenario.ack 1)])
  /\ Client.wait_done Packet.extract 0 [Ok (Scenario.ack 1)]
     = (false, [Client.Received (Scenario.ack 1)]).
Proof.
  assert (H : Scenario.ack 1 = []
              \/ exists s' ack_checksum dataRcvd,
                   Packet.extract (Scenario.ack 1)
                   = Ok (s', ack_checksum, dataRcvd)
                   /\ (Client.verify_checksum s' ack_checksum
                         (PyBytes dataRcvd) = Ok false
                       \/ s' <> 0)).
  { right; exists 1, (Reference.digest (Scenario.ack_text 1)),
      (Scenario.ack_text 1).
    split; [vm_compute; reflexivity|right; discriminate]. }
  split; [exact H|].
  destruct (mismatching_reply_is_dropped Packet.extract 0 (Scenario.ack 1)
              [] H) as (H1 & H2 & _).
  split; [exact H1|exact H2].
Defined.

(** The acknowledgement of sequence 0 while 0 is outstanding. *)
Lemma matching_reply_ends_wait_witness :
  Scenario.ack 0 <> []
  /\ Packet.extract (Scenario.ack 0)
     = Ok (0, Reference.digest (Scenario.ack_text 0), Scenario.ack_text 0)
  /\ Client.verify_checksum 0 (Reference.digest (Scenario.ack_text 0))
       (PyBytes (Scenario.ack_text 0)) = Ok true
  /\ Client.wait_done Packet.extract 0
       [Ok (Scenario.ack 0); Ok (Scenario.ack 1)]
     = (true, [Client.Received (Scenario.ack 0)])
  /\ forall text,
       decode_utf8 (Scenario.ack_text 0) = Ok text ->
       Client.wait_ack Packet.extract 0
         [Ok (Scenario.ack 0); Ok (Scenario.ack 1)]
       = (true, [Client.Received (Scenario.ack 0)]).
Proof.
  split; [apply packet_make_nonempty|].
  split; [vm_compute; reflexivity|split; [vm_compute; reflexivity|]].
  apply (matching_reply_ends_wait Packet.extract 0 (Scenario.ack 0)
           (Reference.digest (Scenario.ack_text 0)) (Scenario.ack_text 0)
           [Ok (Scenario.ack 1)]);
    [apply packet_make_nonempty|vm_compute; reflexivity|
     vm_compute; reflexivity].
Defined.

(** The codec of [Packet], message 3 arriving while 3 is expected. *)
Lemma server_ack_is_accepted_by_sender_witness :
  (forall seq checksum data, Packet.make seq checksum data <> [])
  /\ (forall seq checksum data,
         0 <= seq < 256 -> length checksum = 8%nat ->
         Packet.extract (Packet.make seq checksum data)
         = Ok (seq, checksum, data))
  /\ 0 <= 3 < 256
  /\ Packet.extract (Scenario.message 3 3)
     = Ok (3, Reference.digest (message_text 3 3), message_text 3 3)
  /\ Server.verify_checksum 3 (Reference.digest (message_text 3 3))
       (PyBytes (message_text 3 3)) = Ok true
  /\ exists ack_pkt expected_seq' next,
       Server.loop_body nat Packet.make Packet.extract 3
         (Ok (Scenario.message 3 3, 7%nat))
       = Ok ([(ack_pkt, 7%nat)], expected_seq', next)
       /\ Client.wait_ack Packet.extract 3 [Ok ack_pkt]
          = (true, [Client.Received ack_pkt])
       /\ Client.wait_done Packet.extract 3 [Ok ack_pkt]
          = (true, [Client.Received ack_pkt]).
Proof.
  split; [exact packet_make_nonempty|split; [exact packet_roundtrip|]].
  split; [lia|].
  split; [vm_compute; reflexivity|split; [vm_compute; reflexivity|]].
  apply (server_ack_is_accepted_by_sender nat Packet.make Packet.extract
           packet_make_nonempty packet_roundtrip 3 (Scenario.message 3 3)
           7%nat 3 (Reference.digest (message_text 3 3)) (message_text 3 3)
           []);
    [lia|vm_compute; reflexivity|vm_compute; reflexivity].
Defined.

(** The codec of [Packet], the sender's packets arriving from
    address 7. *)
Lemma loss_free_transfer_completes_witness :
  (forall seq checksum data, Packet.make seq checksum data <> [])
  /\ (forall seq checksum data,
         0 <= seq < 256 -> length checksum = 8%nat ->
         Packet.extract (Packet.make seq checksum data)
         = Ok (seq, checksum, data))
  /\ Client.transfer (Scenario.client (answered_at_once Packet.make 21))
     = Client.Exhausted
  /\ Scenario.server (delivered_in_order nat Packet.make 7%nat)
     = {| Server.sent :=
            map (fun s => (ack_packet Packet.make s, 7%nat)) (Client.range 21);
          Server.expected_seq := 21;
          Server.exit := Server.Shutdown |}.
Proof.
  split; [exact packet_make_nonempty|split; [exact packet_roundtrip|]].
  destruct (loss_free_transfer_completes nat Packet.make Packet.extract
              packet_make_nonempty packet_roundtrip 7%nat) as (H1 & _ & H3).
  split; [exact H1|exact H3].
Defined.

(** ** The width of the checksum field *)




(** Without loss every timer of a run lasts the base 1.0. *)
Example timers_without_loss :
  durations (Client.trace (Scenario.client Scenario.all_acknowledged))
  = repeat 1.0%float 21
  /\ policy_durations
       (Client.trace (Scenario.client Scenario.all_acknowledged))
     = repeat 1.0%float 21.
Proof. split; vm_compute; reflexivity. Qed.

(** After an abort the termination message starts with the value the
    last timeout has grown. *)
Example timers_when_nothing_arrives :
  durations (Client.trace (Scenario.client []))
  = [1.0; 1.0; 1.5; 2.25; 3.375; 5.0; 5.0; 5.0; 5.0; 5.0]%float
    ++ repeat 5.0%float 10.
Proof. vm_compute; reflexivity. Qed.
